(** * generate_services_table.py: extraction, filtering and rendering

    A shallow embedding of [.github/script/generate_services_table.py].

    Python [str] values are sequences of Unicode code points, so a string is
    a [list N].  The builtins the script calls ([len], [max], [str.lower],
    [str.title], [str.replace], [str.ljust], [str.join], [sorted],
    [re.search]) are modelled in [Py] and [Re]; the four functions of the
    script are in [Script]. *)

From Stdlib Require Import List NArith Arith Lia Bool String Ascii.
From Stdlib Require Import Sorting.Permutation Sorting.Sorted.
Import ListNotations.

Set Implicit Arguments.

(* ================================================================== *)
(** ** Python strings *)

Module Py.

Definition char := N.
Definition str := list char.

(** An ASCII literal of the script as a code point sequence. *)
Fixpoint lit (s : string) : str :=
  match s with
  | EmptyString => []
  | String a s' => N_of_ascii a :: lit s'
  end.

Definition len (s : str) : nat := List.length s.

(** The interpreter's Unicode character database, for code points outside
    ASCII.  The script does not own these tables; every definition below
    consults them only at code points >= 128 and is concrete on ASCII. *)
Class UnicodeData := {
  uc_alnum : char -> bool;           (* str.isalnum of a single character *)
  uc_cased : char -> bool;           (* property Cased *)
  uc_case_ignorable : char -> bool;  (* property Case_Ignorable *)
  uc_lower : char -> list char;      (* full lower-case mapping *)
  uc_title : char -> list char       (* full title-case mapping *)
}.

Definition is_ascii (c : char) : bool := (c <? 128)%N.

Definition between (lo hi c : char) : bool := ((lo <=? c) && (c <=? hi))%N.
Arguments between (lo hi c)%_N.

Definition ascii_upper (c : char) : bool := between 65 90 c.
Definition ascii_lower (c : char) : bool := between 97 122 c.
Definition ascii_digit (c : char) : bool := between 48 57 c.
Definition ascii_alpha (c : char) : bool := ascii_upper c || ascii_lower c.

(** Unicode white space, the class [\s] of a [str] pattern. *)
Definition is_space (c : char) : bool :=
  between 9 13 c || between 28 32 c || (c =? 133)%N || (c =? 160)%N
  || (c =? 5760)%N || between 8192 8202 c || (c =? 8232)%N || (c =? 8233)%N
  || (c =? 8239)%N || (c =? 8287)%N || (c =? 12288)%N.

Section WithUnicode.
Context {U : UnicodeData}.

Definition is_alnum (c : char) : bool :=
  if is_ascii c then ascii_alpha c || ascii_digit c else uc_alnum c.

(** The class [\w] of a [str] pattern: alphanumeric or underscore. *)
Definition is_word (c : char) : bool := is_alnum c || (c =? 95)%N.

Definition is_cased (c : char) : bool :=
  if is_ascii c then ascii_alpha c else uc_cased c.

(** ASCII case-ignorable characters: ' . : ^ ` *)
Definition is_case_ignorable (c : char) : bool :=
  if is_ascii c
  then (c =? 39)%N || (c =? 46)%N || (c =? 58)%N || (c =? 94)%N || (c =? 96)%N
  else uc_case_ignorable c.

Definition to_lower_full (c : char) : list char :=
  if is_ascii c then (if ascii_upper c then [(c + 32)%N] else [c])
  else uc_lower c.

Definition to_title_full (c : char) : list char :=
  if is_ascii c then (if ascii_lower c then [(c - 32)%N] else [c])
  else uc_title c.

(** The first character that is not case-ignorable, if any. *)
Fixpoint skip_ignorable (s : str) : option char :=
  match s with
  | [] => None
  | c :: t => if is_case_ignorable c then skip_ignorable t else Some c
  end.

(** Capital sigma (U+03A3) lowers to the final form U+03C2 when a cased
    character precedes it (over case-ignorable ones) and none follows.
    [before] is the text to the left, nearest character first. *)
Definition final_sigma (before after : str) : bool :=
  match skip_ignorable before with
  | Some c =>
      is_cased c &&
      match skip_ignorable after with
      | Some d => negb (is_cased d)
      | None => true
      end
  | None => false
  end.

Definition lower_at (before : str) (c : char) (after : str) : list char :=
  if (c =? 931)%N
  then (if final_sigma before after then [962%N] else [963%N])
  else to_lower_full c.

(** [s.lower()], scanning left to right; [before] is what has been read. *)
Fixpoint lower_from (before s : str) : str :=
  match s with
  | [] => []
  | c :: t => lower_at before c t ++ lower_from (c :: before) t
  end.

Definition lower (s : str) : str := lower_from [] s.

(** [s.title()]: a character that follows a cased one is lowered, any other
    is title-cased. *)
Fixpoint title_from (before : str) (previous_is_cased : bool) (s : str) : str :=
  match s with
  | [] => []
  | c :: t =>
      (if previous_is_cased then lower_at before c t else to_title_full c)
      ++ title_from (c :: before) (is_cased c) t
  end.

Definition title (s : str) : str := title_from [] false s.

End WithUnicode.

(** [s.replace(old, new)] for one-character [old] and [new]. *)
Definition replace (old new : char) (s : str) : str :=
  map (fun c => if (c =? old)%N then new else c) s.

(** [s.ljust(width)]: pad with spaces on the right; never truncates. *)
Definition ljust (s : str) (width : nat) : str :=
  if width <=? len s then s else s ++ repeat 32%N (width - len s).

(** [c * n] for a one-character string. *)
Definition times (c : char) (n : nat) : str := repeat c n.

(** [sep.join(lines)]. *)
Fixpoint join (sep : str) (lines : list str) : str :=
  match lines with
  | [] => []
  | [l] => l
  | l :: rest => l ++ sep ++ join sep rest
  end.

(** [a < b] on strings: lexicographic on code points. *)
Fixpoint str_ltb (a b : str) : bool :=
  match a, b with
  | _, [] => false
  | [], _ :: _ => true
  | x :: a', y :: b' =>
      if (x <? y)%N then true
      else if (y <? x)%N then false
      else str_ltb a' b'
  end.

(** [a == b] on strings. *)
Fixpoint str_eqb (a b : str) : bool :=
  match a, b with
  | [], [] => true
  | x :: a', y :: b' => (x =? y)%N && str_eqb a' b'
  | _, _ => false
  end.

(** [s.startswith(prefix)]. *)
Fixpoint startswith (s prefix : str) : bool :=
  match prefix, s with
  | [], _ => true
  | _ :: _, [] => false
  | p :: prefix', c :: s' => (c =? p)%N && startswith s' prefix'
  end.

(** [sorted(l, key=key)] where keys compare with [ltb].  The builtin is a
    stable sort that only ever asks [<]; a stable sort has one possible
    result, computed here by insertion from the right. *)
Section Sorted.
Variables (A K : Type) (ltb : K -> K -> bool) (key : A -> K).

Fixpoint insert (x : A) (l : list A) : list A :=
  match l with
  | [] => [x]
  | y :: l' => if ltb (key y) (key x) then y :: insert x l' else x :: y :: l'
  end.

Definition sorted (l : list A) : list A := fold_right insert [] l.

End Sorted.

(** [str(n)] of a non-negative integer. *)
Fixpoint digits (u : Decimal.uint) : str :=
  match u with
  | Decimal.Nil => []
  | Decimal.D0 u' => 48%N :: digits u'
  | Decimal.D1 u' => 49%N :: digits u'
  | Decimal.D2 u' => 50%N :: digits u'
  | Decimal.D3 u' => 51%N :: digits u'
  | Decimal.D4 u' => 52%N :: digits u'
  | Decimal.D5 u' => 53%N :: digits u'
  | Decimal.D6 u' => 54%N :: digits u'
  | Decimal.D7 u' => 55%N :: digits u'
  | Decimal.D8 u' => 56%N :: digits u'
  | Decimal.D9 u' => 57%N :: digits u'
  end.

Definition str_of_nat (n : nat) : str := digits (Nat.to_uint n).

(** Zero padding on the left, as [%02d] and [%04d] do. *)
Definition zfill (width : nat) (s : str) : str :=
  repeat 48%N (width - len s) ++ s.

End Py.

(* ================================================================== *)
(** ** Regular expressions: the fragment of [re] the script uses *)

Module Re.
Import Py.

(** Patterns: literal characters, character sets, greedy repetition of a
    set ([\s*], [\w+], [[\w\s]+]), concatenation, alternation and numbered
    capture groups. *)
Inductive regex :=
| Eps
| Chr (c : char)
| In_ (p : char -> bool)
| Rep (lo : nat) (p : char -> bool)
| Cat (r1 r2 : regex)
| Alt (r1 r2 : regex)
| Grp (n : nat) (r : regex).

(** A literal string. *)
Fixpoint Str (s : str) : regex :=
  match s with
  | [] => Eps
  | c :: s' => Cat (Chr c) (Str s')
  end.

(** The groups a match has captured, by number. *)
Definition groups := list (nat * str).

(** Greedy repetition: the longest run first, then shorter ones. *)
Fixpoint greedy (p : char -> bool) (lo : nat) (s : str) : list (groups * str) :=
  match s with
  | [] => []
  | c :: t => if p c then greedy p (pred lo) t else []
  end ++ (if lo =? 0 then [([], s)] else []).

(** Every way [r] matches a prefix of [s], in the order the backtracking
    matcher tries them: the groups captured and the text that remains. *)
Fixpoint run (r : regex) (s : str) : list (groups * str) :=
  match r with
  | Eps => [([], s)]
  | Chr c =>
      match s with
      | x :: t => if (x =? c)%N then [([], t)] else []
      | [] => []
      end
  | In_ p =>
      match s with
      | x :: t => if p x then [([], t)] else []
      | [] => []
      end
  | Rep lo p => greedy p lo s
  | Cat r1 r2 =>
      flat_map (fun m1 =>
        map (fun m2 => (fst m1 ++ fst m2, snd m2)) (run r2 (snd m1)))
        (run r1 s)
  | Alt r1 r2 => run r1 s ++ run r2 s
  | Grp n r =>
      map (fun m => ((n, firstn (len s - len (snd m)) s) :: fst m, snd m))
          (run r s)
  end.

(** [re.search(r, s)]: the first match at the leftmost position that has
    one; every position from 0 to [len s] is tried. *)
Fixpoint search (r : regex) (s : str) : option groups :=
  match run r s with
  | m :: _ => Some (fst m)
  | [] =>
      match s with
      | [] => None
      | _ :: t => search r t
      end
  end.

(** [m.group(n)]. *)
Fixpoint group (m : groups) (n : nat) : option str :=
  match m with
  | [] => None
  | (k, v) :: m' => if k =? n then Some v else group m' n
  end.

End Re.

(* ================================================================== *)
(** ** The environment of a run and its effects *)

Module Env.
Import Py.

(** A [pathlib] path: the anchor (["/"] or empty) and the components. *)
Record Path := mkPath { anchor : str; parts : list str }.

(** [p / n] for a name [n]. *)
Definition child (p : Path) (n : str) : Path :=
  mkPath (anchor p) (parts p ++ [n]).

Definition div (p : Path) (c : string) : Path :=
  mkPath (anchor p) (parts p ++ [lit c]).
Notation "p // c" := (div p c) (at level 40, left associativity).

Definition parent (p : Path) : Path := mkPath (anchor p) (removelast (parts p)).
Definition name (p : Path) : str := last (parts p) [].

(** [str(p)]. *)
Definition path_str (p : Path) : str :=
  match anchor p, parts p with
  | [], [] => lit "."
  | a, ps => a ++ join (lit "/") ps
  end.

(** [a < b] on lists of strings, then on paths. *)
Fixpoint strs_ltb (a b : list str) : bool :=
  match a, b with
  | _, [] => false
  | [], _ :: _ => true
  | x :: a', y :: b' =>
      if str_ltb x y then true
      else if str_ltb y x then false
      else strs_ltb a' b'
  end.

Definition path_ltb (a b : Path) : bool :=
  strs_ltb (anchor a :: parts a) (anchor b :: parts b).

(** What the script asks of the file system.  [fs_read p] is
    [open(p, 'r', encoding='utf-8').read()]: the decoded text, or the message
    of the exception that opening, reading or decoding raised.
    [fs_listdir p] is what [p.iterdir()] lists: the names of the entries
    of [p], in the order the system gives them, or the message of the
    exception it raises ([p] is not a directory, permission is denied). *)
Record FS := {
  fs_exists : Path -> bool;
  fs_is_dir : Path -> bool;
  fs_listdir : Path -> list str + str;
  fs_read : Path -> str + str
}.

Record datetime := {
  year : nat; month : nat; day : nat; hour : nat; minute : nat; second : nat
}.

(** [t.strftime('%Y-%m-%d %H:%M:%S')]. *)
Definition strftime (t : datetime) : str :=
  zfill 4 (str_of_nat (year t)) ++ lit "-" ++ zfill 2 (str_of_nat (month t))
  ++ lit "-" ++ zfill 2 (str_of_nat (day t)) ++ lit " "
  ++ zfill 2 (str_of_nat (hour t)) ++ lit ":" ++ zfill 2 (str_of_nat (minute t))
  ++ lit ":" ++ zfill 2 (str_of_nat (second t)).

(** One run: the location of the script ([__file__]), the file system it
    sees and the reading of the clock. *)
Record World := { script_file : Path; fs : FS; clock : datetime }.

(** The observable actions of a run, in order: what it prints, and what it
    asks of the clock and of the file system.  [Mkdir] and [WriteText]
    record that the run asked for the directory and for the file; a
    failure of the system to provide them is not part of a world. *)
Inductive event :=
| Print (line : str)                      (* print(line) *)
| Now (t : datetime)                      (* datetime.now() *)
| Mkdir (p : Path)                        (* p.mkdir(parents=True, exist_ok=True) *)
| WriteText (p : Path) (content : str).   (* open(p, 'w', encoding='utf-8').write(content) *)

(** A computation returns a value or raises an exception (carried as its
    message), and leaves a trace of events either way. *)
Inductive outcome (A : Type) :=
| Returned (a : A)
| Raised (e : str).
Arguments Raised {A} e.

Definition M (A : Type) : Type := outcome A * list event.

Definition ret {A} (a : A) : M A := (Returned a, []).
Definition raise {A} (e : str) : M A := (Raised e, []).
Definition emit (ev : event) : M unit := (Returned tt, [ev]).

Definition bind {A B} (m : M A) (f : A -> M B) : M B :=
  match m with
  | (Returned a, t) => let (o, t') := f a in (o, t ++ t')
  | (Raised e, t) => (Raised e, t)
  end.

(** [try: m  except Exception as e: h e]. *)
Definition try_except {A} (m : M A) (h : str -> M A) : M A :=
  match m with
  | (Returned a, t) => (Returned a, t)
  | (Raised e, t) => let (o, t') := h e in (o, t ++ t')
  end.

(** [for x in l: s = body s x]. *)
Fixpoint for_each {A S} (l : list A) (body : S -> A -> M S) (s : S) : M S :=
  match l with
  | [] => ret s
  | x :: l' => bind (body s x) (for_each l' body)
  end.

Definition print (line : str) : M unit := emit (Print line).

Definition open_read (f : FS) (p : Path) : M str :=
  match fs_read f p with
  | inl content => ret content
  | inr e => raise e
  end.

(** [p.iterdir()]: the children [p / n] for the names [n] listed. *)
Definition iterdir (f : FS) (p : Path) : M (list Path) :=
  match fs_listdir f p with
  | inl names => ret (map (child p) names)
  | inr e => raise e
  end.

Definition datetime_now (w : World) : M datetime :=
  bind (emit (Now (clock w))) (fun _ => ret (clock w)).

End Env.

Declare Scope py_scope.
Delimit Scope py_scope with py.
Notation "x <- m ;; k" := (Env.bind m (fun x => k))
  (at level 61, m at next level, right associativity) : py_scope.
Notation "m ;; k" := (Env.bind m (fun _ => k))
  (at level 61, right associativity) : py_scope.
Notation "' pat <- m ;; k" := (Env.bind m (fun x => match x with pat => k end))
  (at level 61, pat pattern, m at next level, right associativity) : py_scope.

(* ================================================================== *)
(** ** The script *)

Module Script.
Import Py Re Env.
Local Open Scope py_scope.

Section WithUnicode.
Context {U : UnicodeData}.

Definition is_quote (c : char) : bool := (c =? 34)%N || (c =? 39)%N.
Definition is_word_or_space (c : char) : bool := is_word c || is_space c.

(** [name\s*=\s*] *)
Definition assign_re (name : string) (value : regex) : regex :=
  Cat (Str (lit name))
      (Cat (Rep 0 is_space) (Cat (Chr 61%N) (Cat (Rep 0 is_space) value))).

(** [["\'](body)["\']] *)
Definition quoted_re (body : regex) : regex :=
  Cat (In_ is_quote) (Cat (Grp 1 body) (In_ is_quote)).

(** [r'_stream_type\s*=\s*["\'](\w+)["\']'] *)
Definition stream_type_re : regex :=
  assign_re "_stream_type" (quoted_re (Rep 1 is_word)).

(** [r'(True|False)'] *)
Definition bool_re : regex := Grp 1 (Alt (Str (lit "True")) (Str (lit "False"))).

(** [r'_drm\s*=\s*(True|False)'] *)
Definition drm_re : regex := assign_re "_drm" bool_re.

(** [r'_deprecate\s*=\s*(True|False)'] *)
Definition deprecate_re : regex := assign_re "_deprecate" bool_re.

(** [r'_maxResolution\s*=\s*["\']([\w\s]+)["\']'] *)
Definition max_resolution_re : regex :=
  assign_re "_maxResolution" (quoted_re (Rep 1 is_word_or_space)).

(** [r'_region\s*=\s*["\']([\w\s]+)["\']'] *)
Definition region_re : regex :=
  assign_re "_region" (quoted_re (Rep 1 is_word_or_space)).

(** [m.group(1)]; group 1 takes part in every match of the patterns above. *)
Definition group1 (m : groups) : str :=
  match group m 1 with
  | Some v => v
  | None => []
  end.

(** (service_name, stream_type, drm, deprecate, max_resolution, region) *)
Definition ServiceInfo : Type := str * str * bool * bool * str * str.

(** (service_name, stream_type, drm, max_resolution, region) *)
Definition Service : Type := str * str * bool * str * str.

Definition extract_service_info (f : FS) (init_file : Path) : M ServiceInfo :=
  let service_name := name (parent init_file) in
  let stream_type := lit "N/A" in
  let drm := false in
  let deprecate := false in
  let max_resolution := lit "N/A" in
  let region := lit "N/A" in
  '(stream_type, drm, deprecate, max_resolution, region) <-
    try_except
      (content <- open_read f init_file ;;
       let stream_match := search stream_type_re content in
       let stream_type :=
         match stream_match with
         | Some m => group1 m
         | None => stream_type
         end in
       let drm_match := search drm_re content in
       let drm :=
         match drm_match with
         | Some m => str_eqb (group1 m) (lit "True")
         | None => drm
         end in
       let deprecate_match := search deprecate_re content in
       let deprecate :=
         match deprecate_match with
         | Some m => str_eqb (group1 m) (lit "True")
         | None => deprecate
         end in
       let resolution_match := search max_resolution_re content in
       let max_resolution :=
         match resolution_match with
         | Some m => group1 m
         | None => max_resolution
         end in
       let region_match := search region_re content in
       let region :=
         match region_match with
         | Some m => group1 m
         | None => region
         end in
       ret (stream_type, drm, deprecate, max_resolution, region))
      (* only opening and reading can raise, so the handler still sees
         the initial values of the five variables *)
      (fun e =>
         print (lit "Error reading " ++ path_str init_file ++ lit ": " ++ e) ;;
         ret (stream_type, drm, deprecate, max_resolution, region)) ;;
  ret (service_name, stream_type, drm, deprecate, max_resolution, region).

Definition find_service_files (f : FS) (base_path : Path) : M (list Path) :=
  let services_path := base_path // "StreamingCommunity" // "Api" // "Service" in
  let init_files := [] in
  if negb (fs_exists f services_path) then
    print (lit "Services path not found: " ++ path_str services_path) ;;
    ret init_files
  else
    entries <- iterdir f services_path ;;
    let init_files :=
      fold_left (fun init_files service_dir =>
        if fs_is_dir f service_dir
           && negb (startswith (name service_dir) (lit "__"))
        then
          let init_file := service_dir // "__init__.py" in
          if fs_exists f init_file then init_files ++ [init_file]
          else init_files
        else init_files)
        entries init_files in
    ret (sorted path_ltb (fun p => p) init_files).

(** (display_name, stream_type, drm_icon, max_resolution, region) *)
Definition Row : Type := str * str * str * str * str.

Definition Widths : Type := nat * nat * nat * nat * nat.

Definition check_mark : str := [9989%N].   (* U+2705 *)
Definition cross_mark : str := [10060%N].  (* U+274C *)

Definition col1_header : str := lit "Site Name".
Definition col2_header : str := lit "Stream Type".
Definition col3_header : str := lit "DRM".
Definition col4_header : str := lit "Max Resolution".
Definition col5_header : str := lit "Region".

Definition headers : Row :=
  (col1_header, col2_header, col3_header, col4_header, col5_header).

Definition sort_key (x : Service) : str :=
  let '(service_name, _, _, _, _) := x in lower service_name.

Definition display (x : Service) : Row :=
  let '(service_name, stream_type, drm, max_resolution, region) := x in
  let display_name := title (replace 95%N 32%N service_name) in
  let drm_icon := if drm then check_mark else cross_mark in
  (display_name, stream_type, drm_icon, max_resolution, region).

(** The loop over [table_data] that widens the five maxima. *)
Definition widen (m : Widths) (row : Row) : Widths :=
  let '(max_col1, max_col2, max_col3, max_col4, max_col5) := m in
  let '(display_name, stream_type, drm_icon, max_resolution, region) := row in
  (Nat.max max_col1 (len display_name),
   Nat.max max_col2 (len stream_type),
   Nat.max max_col3 (len drm_icon),
   Nat.max max_col4 (len max_resolution),
   Nat.max max_col5 (len region)).

Definition col_widths (table_data : list Row) : Widths :=
  let max_col1 := len col1_header in
  let max_col2 := len col2_header in
  let max_col3 := len col3_header in
  let max_col4 := len col4_header in
  let max_col5 := len col5_header in
  fold_left widen table_data (max_col1, max_col2, max_col3, max_col4, max_col5).

(** The f-string shared by the header row and the data rows. *)
Definition format_row (m : Widths) (row : Row) : str :=
  let '(max_col1, max_col2, max_col3, max_col4, max_col5) := m in
  let '(c1, c2, c3, c4, c5) := row in
  lit "| " ++ ljust c1 max_col1 ++ lit " | " ++ ljust c2 max_col2
  ++ lit " | " ++ ljust c3 max_col3 ++ lit " | " ++ ljust c4 max_col4
  ++ lit " | " ++ ljust c5 max_col5 ++ lit " |".

Definition format_separator (m : Widths) : str :=
  let '(max_col1, max_col2, max_col3, max_col4, max_col5) := m in
  lit "|" ++ times 45%N (max_col1 + 2) ++ lit "|" ++ times 45%N (max_col2 + 2)
  ++ lit "|" ++ times 45%N (max_col3 + 2) ++ lit "|" ++ times 45%N (max_col4 + 2)
  ++ lit "|" ++ times 45%N (max_col5 + 2) ++ lit "|".

Definition make_table_data (services : list Service) : list Row :=
  let services := sorted str_ltb sort_key services in
  map display services.

(** The list [lines] of [generate_markdown_table], given the clock reading. *)
Definition table_lines (services : list Service) (now : datetime) : list str :=
  let table_data := make_table_data services in
  let m := col_widths table_data in
  let lines := [lit "# Services Overview"; []] in
  let header := format_row m headers in
  let lines := lines ++ [header] in
  let separator := format_separator m in
  let lines := lines ++ [separator] in
  let lines :=
    fold_left (fun lines row => lines ++ [format_row m row]) table_data lines in
  let lines := lines ++ [[]] in
  let lines := lines ++ [lit "---"] in
  let lines := lines ++ [[]] in
  let lines := lines ++ [lit "*Last updated: " ++ strftime now ++ lit "*"] in
  let lines := lines ++ [[]] in
  lines.

(** Reading the clock is the function's only effect, so the model reads it
    first and then builds the lines. *)
Definition generate_markdown_table (w : World) (services : list Service)
  : M str :=
  now <- datetime_now w ;;
  ret (join [10%N] (table_lines services now)).

(** The body of the loop of [main] over [init_files]. *)
Definition collect (f : FS) (acc : list Service * nat) (init_file : Path)
  : M (list Service * nat) :=
  let '(services, deprecated_count) := acc in
  '(service_name, stream_type, drm, deprecate, max_resolution, region) <-
    extract_service_info f init_file ;;
  if negb deprecate
  then ret (services ++ [(service_name, stream_type, drm, max_resolution, region)],
            deprecated_count)
  else ret (services, deprecated_count + 1).

Definition main (w : World) : M unit :=
  let script_dir := parent (script_file w) in
  let base_path := parent (parent (parent script_dir)) in
  print (lit "Base path: " ++ path_str base_path) ;;
  init_files <- find_service_files (fs w) base_path ;;
  print (lit "Found " ++ str_of_nat (List.length init_files)
         ++ lit " service files") ;;
  match init_files with
  | [] => print (lit "No service files found!") ;; ret tt
  | _ :: _ =>
      let services := [] in
      let deprecated_count := 0 in
      '(services, deprecated_count) <-
        for_each init_files (collect (fs w)) (services, deprecated_count) ;;
      print (lit "Deprecated services: " ++ str_of_nat deprecated_count) ;;
      markdown_content <- generate_markdown_table w services ;;
      let output_file := base_path // ".github" // "doc" // "site.md" in
      emit (Mkdir (parent output_file)) ;;
      emit (WriteText output_file markdown_content)
  end.

End WithUnicode.
End Script.

(* ================================================================== *)
(** ** Vocabulary of the properties *)

Module Spec.
Import Py Re Env Script.

(** Tables that know no character outside ASCII: every such code point is
    uncased, not alphanumeric and its own case mapping.  On ASCII text the
    definitions of [Py] never consult the tables, so these serve to
    evaluate the script on examples. *)
Definition ascii_only : UnicodeData :=
  {| uc_alnum := fun _ => false;
     uc_cased := fun _ => false;
     uc_case_ignorable := fun _ => false;
     uc_lower := fun c => [c];
     uc_title := fun c => [c] |}.

(** *** Matching, declaratively

    [denote r s g s'] : [r] matches the prefix of [s] that ends where [s']
    begins, capturing the groups [g]. *)
Fixpoint denote (r : regex) (s : str) (g : groups) (s' : str) : Prop :=
  match r with
  | Eps => s = s' /\ g = []
  | Chr c => s = c :: s' /\ g = []
  | In_ p => exists c, p c = true /\ s = c :: s' /\ g = []
  | Rep lo p =>
      exists l, s = l ++ s' /\ forallb p l = true /\ lo <= len l /\ g = []
  | Cat r1 r2 =>
      exists g1 g2 s1, denote r1 s g1 s1 /\ denote r2 s1 g2 s' /\ g = g1 ++ g2
  | Alt r1 r2 => denote r1 s g s' \/ denote r2 s g s'
  | Grp n r => exists l g0, s = l ++ s' /\ denote r s g0 s' /\ g = (n, l) :: g0
  end.

(** The token of a boolean literal. *)
Definition token (v : bool) : str := if v then lit "True" else lit "False".

(** [s] starts with [name], optional white space, [=], optional white
    space and the literal of [v]. *)
Definition assigns_bool (name : string) (v : bool) (s : str) : Prop :=
  exists ws1 ws2 rest,
    forallb is_space ws1 = true /\ forallb is_space ws2 = true /\
    s = lit name ++ ws1 ++ 61%N :: ws2 ++ token v ++ rest.

(** [s] starts with [name], optional white space, [=], optional white
    space, a quote character, the non-empty text [v] of characters of the
    class [p], and a quote character. *)
Definition assigns_quoted (name : string) (p : char -> bool) (v s : str)
  : Prop :=
  exists ws1 ws2 q1 q2 rest,
    forallb is_space ws1 = true /\ forallb is_space ws2 = true /\
    is_quote q1 = true /\ is_quote q2 = true /\
    v <> [] /\ forallb p v = true /\
    s = lit name ++ ws1 ++ 61%N :: ws2 ++ q1 :: v ++ q2 :: rest.

(** [P a] says that [s] starts with an assignment of the value [a].  Then
    [first_at P content i a]: the leftmost offset of [content] at which an
    assignment starts is [i], and the value assigned there is [a]. *)
Definition first_at {A} (P : A -> str -> Prop) (content : str) (i : nat) (a : A)
  : Prop :=
  i <= len content /\ P a (skipn i content) /\
  forall j a', j < i -> ~ P a' (skipn j content).

(** No assignment starts at any offset of [content]. *)
Definition nowhere {A} (P : A -> str -> Prop) (content : str) : Prop :=
  forall j a, j <= len content -> ~ P a (skipn j content).

(** *** Records *)

Definition info_name (r : ServiceInfo) : str :=
  let '(service_name, _, _, _, _, _) := r in service_name.
Definition info_stream_type (r : ServiceInfo) : str :=
  let '(_, stream_type, _, _, _, _) := r in stream_type.
Definition info_drm (r : ServiceInfo) : bool :=
  let '(_, _, drm, _, _, _) := r in drm.
Definition info_deprecate (r : ServiceInfo) : bool :=
  let '(_, _, _, deprecate, _, _) := r in deprecate.
Definition info_max_resolution (r : ServiceInfo) : str :=
  let '(_, _, _, _, max_resolution, _) := r in max_resolution.
Definition info_region (r : ServiceInfo) : str :=
  let '(_, _, _, _, _, region) := r in region.

(** The record with every field but the name at its default. *)
Definition default_info (service_name : str) : ServiceInfo :=
  (service_name, lit "N/A", false, false, lit "N/A", lit "N/A").

(** A record without its deprecated flag, as [main] hands it on. *)
Definition kept_shape (r : ServiceInfo) : Service :=
  let '(service_name, stream_type, drm, _, max_resolution, region) := r in
  (service_name, stream_type, drm, max_resolution, region).

Definition service_name_of (x : Service) : str :=
  let '(service_name, _, _, _, _) := x in service_name.

(** What the extractor returns for a file, and what it prints. *)
Definition record_of {U : UnicodeData} (f : FS) (init_file : Path)
  : ServiceInfo :=
  match fst (extract_service_info f init_file) with
  | Returned r => r
  | Raised _ => default_info (name (parent init_file))
  end.

Definition log_of {U : UnicodeData} (f : FS) (init_file : Path) : list event :=
  snd (extract_service_info f init_file).

(** The records [main] keeps and the records it drops. *)
Definition kept (records : list ServiceInfo) : list Service :=
  map kept_shape (filter (fun r => negb (info_deprecate r)) records).

Definition dropped (records : list ServiceInfo) : list ServiceInfo :=
  filter info_deprecate records.

(** The paths [main] computes. *)
Definition base_path_of (w : World) : Path :=
  parent (parent (parent (parent (script_file w)))).

Definition output_file_of (w : World) : Path :=
  base_path_of w // ".github" // "doc" // "site.md".

Definition services_path_of (w : World) : Path :=
  base_path_of w // "StreamingCommunity" // "Api" // "Service".

(** The declaration files among the entries of a directory, in the order
    of the listing. *)
Definition candidates (f : FS) (entries : list Path) : list Path :=
  map (fun d => d // "__init__.py")
      (filter (fun d => fs_is_dir f d
                        && negb (startswith (name d) (lit "__"))
                        && fs_exists f (d // "__init__.py"))
              entries).

(** Two listings with the same names in some order, or that raise alike. *)
Definition same_listing (a b : list str + str) : Prop :=
  match a, b with
  | inl names1, inl names2 => Permutation names1 names2
  | inr e1, inr e2 => e1 = e2
  | _, _ => False
  end.

(** Two file systems that answer every question alike, except that a
    directory may list its entries in another order. *)
Definition same_files (f1 f2 : FS) : Prop :=
  (forall p, fs_exists f1 p = fs_exists f2 p) /\
  (forall p, fs_is_dir f1 p = fs_is_dir f2 p) /\
  (forall p, fs_read f1 p = fs_read f2 p) /\
  (forall p, same_listing (fs_listdir f1 p) (fs_listdir f2 p)).

(** The lexicographic order on lists over an order [lt] on elements, of
    which [str_ltb] and [strs_ltb] are instances. *)
Fixpoint lex_ltb {A} (lt : A -> A -> bool) (a b : list A) : bool :=
  match a, b with
  | _, [] => false
  | [], _ :: _ => true
  | x :: a', y :: b' =>
      if lt x y then true
      else if lt y x then false
      else lex_ltb lt a' b'
  end.

(** *** Tables *)

Definition cells (r : Row) : list str :=
  let '(c1, c2, c3, c4, c5) := r in [c1; c2; c3; c4; c5].

Definition widths (m : Widths) : list nat :=
  let '(w1, w2, w3, w4, w5) := m in [w1; w2; w3; w4; w5].

(** The [k]-th cell of a row and the [k]-th width, counted from 0. *)
Definition cell (k : nat) (r : Row) : str := nth k (cells r) [].
Definition width (k : nat) (m : Widths) : nat := nth k (widths m) 0.

(** A cell followed by the spaces that bring it to [w] characters. *)
Definition padded (c : str) (w : nat) : str := c ++ repeat 32%N (w - len c).

(** A row of padded cells between bars. *)
Definition bar_row (padded_cells : list str) : str :=
  lit "| " ++ join (lit " | ") padded_cells ++ lit " |".

(** The lines above and below the data rows. *)
Definition preamble (m : Widths) : list str :=
  [lit "# Services Overview"; []; format_row m headers; format_separator m].

Definition stamp_line (now : datetime) : str :=
  lit "*Last updated: " ++ strftime now ++ lit "*".

Definition trailer (now : datetime) : list str :=
  [[]; lit "---"; []; stamp_line now; []].

(** [a] comes no later than [b] when names are compared lower-cased: the
    lower-cased name of [b] is not below that of [a]. *)
Definition key_le {U : UnicodeData} (a b : Service) : Prop :=
  str_ltb (lower (service_name_of b)) (lower (service_name_of a)) = false.

(** Rows in ascending order of their display label. *)
Definition label_le (a b : Row) : Prop :=
  str_ltb (cell 0 b) (cell 0 a) = false.

(** The images of the characters of a string under [title], one piece per
    character. *)
Fixpoint title_pieces {U : UnicodeData} (before : str)
  (previous_is_cased : bool) (s : str) : list str :=
  match s with
  | [] => []
  | c :: t =>
      (if previous_is_cased then lower_at before c t else to_title_full c)
      :: title_pieces (c :: before) (is_cased c) t
  end.

(** Position [i] of [s] begins a word: it is the first position or follows
    an underscore or a space. *)
Definition word_start (s : str) (i : nat) : Prop :=
  i = 0 \/
  exists u, nth_error s (i - 1) = Some u /\ (u = 95%N \/ u = 32%N).

Definition is_print (ev : event) : bool :=
  match ev with
  | Print _ => true
  | _ => false
  end.

(** *** Sample environments *)

(** A file system in which every path exists and every file reads as
    [result]. *)
Definition reads_as (result : str + str) : FS :=
  {| fs_exists := fun _ => true;
     fs_is_dir := fun _ => true;
     fs_listdir := fun _ => inl [];
     fs_read := fun _ => result |}.

Definition sample_init : Path :=
  mkPath (lit "/")
    [lit "repo"; lit "StreamingCommunity"; lit "Api"; lit "Service";
     lit "amazon_prime"; lit "__init__.py"].

(** A file system without the services directory. *)
Definition no_services : FS :=
  {| fs_exists := fun _ => false;
     fs_is_dir := fun _ => false;
     fs_listdir := fun _ => inr (lit "No such file or directory");
     fs_read := fun _ => inr (lit "No such file or directory") |}.

(** Two services, [amazon_prime] and the deprecated [old_service], listed
    by the directory in that order. *)
Definition two_services : FS :=
  {| fs_exists := fun _ => true;
     fs_is_dir := fun _ => true;
     fs_listdir := fun _ => inl [lit "old_service"; lit "amazon_prime"];
     fs_read := fun p =>
       if str_eqb (name (parent p)) (lit "old_service")
       then inl (lit "_deprecate = True")
       else inl (lit "_stream_type = 'HLS'; _drm = True; _deprecate = False; _maxResolution = '1080p'; _region = 'IT'") |}.

Definition sample_script : Path :=
  mkPath (lit "/")
    [lit "work"; lit "repo"; lit ".github"; lit "script";
     lit "generate_services_table.py"].

Definition sample_clock : datetime :=
  {| year := 2025; month := 12; day := 23; hour := 9; minute := 5;
     second := 0 |}.

Definition sample_clock_later : datetime :=
  {| year := 2025; month := 12; day := 24; hour := 18; minute := 30;
     second := 59 |}.

Definition sample_world (f : FS) : World :=
  {| script_file := sample_script; fs := f; clock := sample_clock |}.

(** The same two services, listed in the other order. *)
Definition two_services_reversed : FS :=
  {| fs_exists := fs_exists two_services;
     fs_is_dir := fs_is_dir two_services;
     fs_listdir := fun _ => inl [lit "amazon_prime"; lit "old_service"];
     fs_read := fs_read two_services |}.

(** Two assignments of [_drm]; no [_deprecate]. *)
Definition sample_flags : str := lit "_drm=False;_drm=True".

(** A region with blanks inside the quotes; no [_stream_type]. *)
Definition sample_region : str := lit "_region = ' IT '".

(** *** Further vocabulary *)

(** [a] is a prefix of [b]. *)
Fixpoint is_prefix (a b : list str) : bool :=
  match a, b with
  | [], _ => true
  | _ :: _, [] => false
  | x :: a', y :: b' => str_eqb x y && is_prefix a' b'
  end.

(** [a] is [p] or one of the directories above [p]. *)
Definition reaches (a p : Path) : bool :=
  str_eqb (anchor a) (anchor p) && is_prefix (parts a) (parts p).

(** Two file systems answer alike at [p], up to the order of its
    listing. *)
Definition agree_at (f1 f2 : FS) (p : Path) : Prop :=
  fs_exists f1 p = fs_exists f2 p /\
  fs_is_dir f1 p = fs_is_dir f2 p /\
  fs_read f1 p = fs_read f2 p /\
  same_listing (fs_listdir f1 p) (fs_listdir f2 p).

(** [f2] answers like [f1] everywhere but at [out] and at the directories
    above it: the paths that making the directories of [out] and writing
    [out] can change.  So [f2] may be what a run that wrote [out] has made
    of [f1]. *)
Definition unchanged_inputs (out : Path) (f1 f2 : FS) : Prop :=
  forall p, reaches p out = false -> agree_at f1 f2 p.

(** The file system once the directories above [out] are made and [doc]
    is written to [out]. *)
Definition fs_written (f : FS) (out : Path) (doc : str) : FS :=
  {| fs_exists := fun p => reaches p out || fs_exists f p;
     fs_is_dir := fun p =>
       if reaches p out then negb (reaches out p) else fs_is_dir f p;
     fs_listdir := fun p =>
       if reaches p out
       then
         if reaches out p then inr (lit "Not a directory")
         else
           let n := nth (List.length (parts p)) (parts out) [] in
           match fs_listdir f p with
           | inl names =>
               inl (if existsb (str_eqb n) names then names else names ++ [n])
           | inr _ => inl [n]
           end
       else fs_listdir f p;
     fs_read := fun p =>
       if reaches p out
       then if reaches out p then inl doc else inr (lit "Is a directory")
       else fs_read f p |}.

(** The file system a run leaves behind: the one it started from, with
    each file it wrote (the directory above is made by the [Mkdir] that
    precedes the writing). *)
Definition fs_after (f : FS) (t : list event) : FS :=
  fold_left (fun f ev =>
    match ev with
    | WriteText p content => fs_written f p content
    | _ => f
    end) t f.

(** [doc.split('\n')]. *)
Fixpoint split_lines (doc : str) : list str :=
  match doc with
  | [] => [[]]
  | c :: t =>
      if (c =? 10)%N then [] :: split_lines t
      else
        match split_lines t with
        | l :: ls => (c :: l) :: ls
        | [] => [[c]]
        end
  end.

(** A text without line feed. *)
Definition one_line (s : str) : Prop := ~ In 10%N s.



(** The sum of the five widths. *)
Definition total_width (m : Widths) : nat := list_sum (widths m).

(** The records whose sort key is [k]. *)
Definition has_key {U : UnicodeData} (k : str) (x : Service) : bool :=
  str_eqb (sort_key x) k.

(** An ASCII letter in lower case; any other character unchanged. *)
Definition fold_case (c : char) : char :=
  if ascii_upper c then (c + 32)%N else c.

(** The leftmost offset of [content] at which [r] matches is [i], and the
    first match there captures [g]. *)
Definition leftmost_match (r : regex) (content : str) (i : nat) (g : groups)
  : Prop :=
  i <= len content /\
  (forall j, j < i -> run r (skipn j content) = []) /\
  exists s', hd_error (run r (skipn i content)) = Some (g, s').

(** The lines the extractor prints for the files it cannot read, in the
    order of the files. *)
Definition read_errors (f : FS) (init_files : list Path) : list event :=
  flat_map (fun p =>
    match fs_read f p with
    | inl _ => []
    | inr e =>
        [Print (lit "Error reading " ++ path_str p ++ lit ": " ++ e)]
    end) init_files.

(** The placeholders of a service whose file cannot be read. *)
Definition placeholder_service (service_name : str) : Service :=
  (service_name, lit "N/A", false, lit "N/A", lit "N/A").

(** A services directory that holds the deprecated [old_service] only. *)
Definition only_old_service : FS :=
  {| fs_exists := fun _ => true;
     fs_is_dir := fun _ => true;
     fs_listdir := fun _ => inl [lit "old_service"];
     fs_read := fun _ => inl (lit "_deprecate = True") |}.

(** A file system given by its directories, each with the names it
    lists, and its files, each with its text. *)
Fixpoint lookup {A} (p : Path) (l : list (Path * A)) : option A :=
  match l with
  | [] => None
  | (q, a) :: l' =>
      if reaches p q && reaches q p then Some a else lookup p l'
  end.

Definition fs_of_tree (dirs : list (Path * list str))
  (files : list (Path * str)) : FS :=
  {| fs_exists := fun p =>
       match lookup p dirs, lookup p files with
       | None, None => false
       | _, _ => true
       end;
     fs_is_dir := fun p =>
       match lookup p dirs with
       | Some _ => true
       | None => false
       end;
     fs_listdir := fun p =>
       match lookup p dirs, lookup p files with
       | Some names, _ => inl names
       | None, Some _ => inr (lit "Not a directory")
       | None, None => inr (lit "No such file or directory")
       end;
     fs_read := fun p =>
       match lookup p files, lookup p dirs with
       | Some text, _ => inl text
       | None, Some _ => inr (lit "Is a directory")
       | None, None => inr (lit "No such file or directory")
       end |}.

Definition at_root (names : list str) : Path := mkPath (lit "/") names.

(** The script in a checkout at [/work/repo], and the two services under
    the base path [/work]; there is no [/work/.github] yet. *)
Definition sample_checkout : FS :=
  fs_of_tree
    [(at_root [], [lit "work"]);
     (at_root [lit "work"], [lit "repo"; lit "StreamingCommunity"]);
     (at_root [lit "work"; lit "repo"], [lit ".github"]);
     (at_root [lit "work"; lit "repo"; lit ".github"], [lit "script"]);
     (at_root [lit "work"; lit "repo"; lit ".github"; lit "script"],
      [lit "generate_services_table.py"]);
     (at_root [lit "work"; lit "StreamingCommunity"], [lit "Api"]);
     (at_root [lit "work"; lit "StreamingCommunity"; lit "Api"], [lit "Service"]);
     (at_root [lit "work"; lit "StreamingCommunity"; lit "Api"; lit "Service"],
      [lit "old_service"; lit "amazon_prime"]);
     (at_root [lit "work"; lit "StreamingCommunity"; lit "Api"; lit "Service"; lit "old_service"],
      [lit "__init__.py"]);
     (at_root [lit "work"; lit "StreamingCommunity"; lit "Api"; lit "Service"; lit "amazon_prime"],
      [lit "__init__.py"])]
    [(sample_script, lit "# generate_services_table");
     (at_root [lit "work"; lit "StreamingCommunity"; lit "Api"; lit "Service"; lit "old_service"; lit "__init__.py"],
      lit "_deprecate = True");
     (at_root [lit "work"; lit "StreamingCommunity"; lit "Api"; lit "Service"; lit "amazon_prime"; lit "__init__.py"],
      lit "_stream_type = 'HLS'; _drm = True; _deprecate = False; _maxResolution = '1080p'; _region = 'IT'")].

(** A services path that exists but is a plain file. *)
Definition services_is_a_file : FS :=
  {| fs_exists := fun _ => true;
     fs_is_dir := fun _ => false;
     fs_listdir := fun _ => inr (lit "Not a directory");
     fs_read := fun _ => inl [] |}.

(** A services directory whose one declaration file cannot be read. *)
Definition unreadable_service : FS :=
  {| fs_exists := fun _ => true;
     fs_is_dir := fun _ => true;
     fs_listdir := fun _ => inl [lit "amazon_prime"];
     fs_read := fun _ => inr (lit "Permission denied") |}.

(** Two names that differ in the case of their letters, and a third. *)
Definition sample_services : list Service :=
  [(lit "Amazon_Prime", lit "HLS", true, lit "1080p", lit "IT");
   (lit "amazon_prime", lit "DASH", false, lit "720p", lit "US");
   (lit "rai", lit "HLS", false, lit "N/A", lit "N/A")].

(** A services directory with a cache directory, a plain file, a
    directory without declaration file and one service. *)
Definition mixed_entries : FS :=
  {| fs_exists := fun p =>
       negb (str_eqb (name (parent p)) (lit "empty_dir"));
     fs_is_dir := fun p => negb (str_eqb (name p) (lit "notes.txt"));
     fs_listdir := fun _ =>
       inl [lit "__pycache__"; lit "notes.txt"; lit "empty_dir";
            lit "amazon_prime"];
     fs_read := fun _ => inl (lit "_drm = True") |}.

End Spec.

(* ================================================================== *)
(** ** Facts about matching *)

Module ReFacts.
Import Py Re Spec.

Lemma greedy_spec (p : char -> bool) (s : str) :
  forall lo g s',
    In (g, s') (greedy p lo s) <->
    exists l, s = l ++ s' /\ forallb p l = true /\ lo <= len l /\ g = [].
Proof.
  induction s as [|c t IH]; intros lo g s'; simpl.
  - destruct lo; simpl.
    + split.
      * intros [E|[]]. inversion E; subst. exists []. auto.
      * intros (l & E & _ & _ & ->). symmetry in E.
        apply app_eq_nil in E. destruct E as [_ ->]. auto.
    + split; [intros []|].
      intros (l & E & _ & Hlo & _). symmetry in E.
      apply app_eq_nil in E. destruct E as [-> _]. simpl in Hlo. lia.
  - rewrite in_app_iff. split.
    + intros [H|H].
      * destruct (p c) eqn:Hc; [|destruct H].
        apply IH in H. destruct H as (l & -> & Hl & Hlo & ->).
        exists (c :: l). simpl. rewrite Hc, Hl.
        repeat split; auto. unfold len in *. simpl. lia.
      * destruct lo; simpl in H; [|destruct H].
        destruct H as [E|[]]. inversion E; subst. exists []. auto.
    + intros (l & E & Hl & Hlo & ->). destruct l as [|x l]; simpl in *.
      * right. subst s'. destruct lo; [simpl; auto | unfold len in Hlo; simpl in Hlo; lia].
      * left. inversion E; subst x t. apply andb_true_iff in Hl.
        destruct Hl as [Hc Hl]. rewrite Hc. apply IH. exists l.
        repeat split; auto. unfold len in *. simpl in Hlo. lia.
Qed.

(** What is left after a match is a suffix of the input. *)
Lemma denote_suffix (r : regex) :
  forall s g s', denote r s g s' -> exists l, s = l ++ s'.
Proof.
  induction r; simpl; intros s g s' H.
  - destruct H as [-> _]. exists []. reflexivity.
  - destruct H as [-> _]. exists [c]. reflexivity.
  - destruct H as (c & _ & -> & _). exists [c]. reflexivity.
  - destruct H as (l & -> & _). exists l. reflexivity.
  - destruct H as (g1 & g2 & s1 & H1 & H2 & _).
    apply IHr1 in H1. apply IHr2 in H2.
    destruct H1 as [l1 ->], H2 as [l2 ->]. exists (l1 ++ l2).
    now rewrite app_assoc.
  - destruct H as [H|H]; eauto.
  - destruct H as (l & _ & -> & _). exists l. reflexivity.
Qed.

Lemma firstn_consumed (l s' : str) :
  firstn (len (l ++ s') - len s') (l ++ s') = l.
Proof.
  unfold len. rewrite length_app.
  replace (List.length l + List.length s' - List.length s')
    with (List.length l + 0) by lia.
  rewrite firstn_app_2. simpl. apply app_nil_r.
Qed.

(** The matcher enumerates exactly the matches of the pattern. *)
Lemma run_denote (r : regex) :
  forall s g s', In (g, s') (run r s) <-> denote r s g s'.
Proof.
  induction r; intros s g s'; simpl.
  - split.
    + intros [E|[]]. inversion E. auto.
    + intros [-> ->]. auto.
  - destruct s as [|x t].
    + split; [intros [] | intros [E _]; discriminate].
    + destruct (N.eqb_spec x c) as [->|Hne]; simpl.
      * split.
        -- intros [E|[]]. inversion E. auto.
        -- intros [E ->]. inversion E. auto.
      * split; [intros [] | intros [E _]; inversion E; congruence].
  - destruct s as [|x t].
    + split; [intros [] | intros (c & _ & E & _); discriminate].
    + destruct (p x) eqn:Hx; simpl.
      * split.
        -- intros [E|[]]. inversion E. exists x. auto.
        -- intros (c & _ & E & ->). inversion E. auto.
      * split; [intros [] | intros (c & Hc & E & _); inversion E; congruence].
  - apply greedy_spec.
  - rewrite in_flat_map. split.
    + intros ([g1 s1] & H1 & H). apply in_map_iff in H.
      destruct H as ([g2 s2] & E & H2). simpl in E. inversion E; subst.
      exists g1, g2, s1. rewrite <- IHr1, <- IHr2. auto.
    + intros (g1 & g2 & s1 & H1 & H2 & ->).
      exists (g1, s1). split; [now apply IHr1|].
      apply in_map_iff. exists (g2, s'). split; [reflexivity | now apply IHr2].
  - rewrite in_app_iff, IHr1, IHr2. reflexivity.
  - rewrite in_map_iff. split.
    + intros ([g0 s0] & E & H). simpl in E. inversion E; subst. clear E.
      apply IHr in H. destruct (denote_suffix _ _ _ _ H) as [l ->].
      exists l, g0. rewrite firstn_consumed. auto.
    + intros (l & g0 & -> & H & ->). exists (g0, s'). simpl.
      rewrite firstn_consumed. split; [reflexivity | now apply IHr].
Qed.

Lemma denote_Str (l : str) :
  forall s g s', denote (Str l) s g s' <-> s = l ++ s' /\ g = [].
Proof.
  induction l as [|c l IH]; intros s g s'; simpl.
  - reflexivity.
  - split.
    + intros (g1 & g2 & s1 & [-> ->] & H & ->). apply IH in H.
      destruct H as [-> ->]. auto.
    + intros [-> ->]. exists [], [], (l ++ s'). repeat split. now apply IH.
Qed.

(** [search] returns the first match at the leftmost matching offset. *)
Lemma search_first (r : regex) :
  forall s i m rest,
    (forall j, j < i -> run r (skipn j s) = []) ->
    run r (skipn i s) = m :: rest ->
    search r s = Some (fst m).
Proof.
  induction s as [|c t IH]; intros i m rest Hlt Hi.
  - rewrite skipn_nil in Hi. simpl. now rewrite Hi.
  - destruct i as [|i].
    + simpl in Hi. simpl. now rewrite Hi.
    + pose proof (Hlt 0 ltac:(lia)) as H0. simpl in H0.
      simpl. rewrite H0. simpl in Hi.
      apply (IH i m rest); auto.
      intros j Hj. apply (Hlt (S j)). lia.
Qed.

Lemma search_none (r : regex) :
  forall s, (forall j, j <= len s -> run r (skipn j s) = []) ->
            search r s = None.
Proof.
  induction s as [|c t IH]; intros H.
  - pose proof (H 0 ltac:(lia)) as H0. simpl in H0. simpl. now rewrite H0.
  - pose proof (H 0 ltac:(lia)) as H0. simpl in H0. simpl. rewrite H0. apply IH.
    intros j Hj. apply (H (S j)). unfold len in *. simpl. lia.
Qed.

(** No match at an offset, seen from the declarative side. *)
Lemma run_nil (r : regex) (s : str) :
  (forall g s', ~ denote r s g s') -> run r s = [].
Proof.
  intros H. destruct (run r s) as [|[g s'] rest] eqn:E; [reflexivity|].
  exfalso. apply (H g s'). apply run_denote. rewrite E. now left.
Qed.

End ReFacts.

(* ================================================================== *)
(** ** Facts about the patterns of the extractor *)

Module PatternFacts.
Import Py Re Env Script Spec ReFacts.

(** A run of characters of a class, followed by a character outside it,
    splits a text in one way only. *)
Lemma span_unique (p : char -> bool) :
  forall l1 l2 x y r1 r2,
    forallb p l1 = true -> forallb p l2 = true ->
    p x = false -> p y = false ->
    l1 ++ x :: r1 = l2 ++ y :: r2 ->
    l1 = l2 /\ x = y /\ r1 = r2.
Proof.
  induction l1 as [|a l1 IH]; intros [|b l2] x y r1 r2 H1 H2 Hx Hy E;
    simpl in *.
  - inversion E. auto.
  - inversion E; subst. apply andb_true_iff in H2. destruct H2. congruence.
  - inversion E; subst. apply andb_true_iff in H1. destruct H1. congruence.
  - inversion E; subst. apply andb_true_iff in H1, H2.
    destruct H1 as [_ H1], H2 as [_ H2].
    destruct (IH l2 x y r1 r2 H1 H2 Hx Hy H3) as (-> & -> & ->). auto.
Qed.

Lemma quote_cases (c : char) : is_quote c = true -> c = 34%N \/ c = 39%N.
Proof.
  unfold is_quote. intros H. apply orb_true_iff in H.
  destruct H as [H|H]; apply N.eqb_eq in H; auto.
Qed.

Lemma quote_not_space (c : char) : is_quote c = true -> is_space c = false.
Proof. intros H. destruct (quote_cases _ H) as [->| ->]; reflexivity. Qed.

Section WithUnicode.
Context {U : UnicodeData}.

Lemma quote_not_word (c : char) : is_quote c = true -> is_word c = false.
Proof. intros H. destruct (quote_cases _ H) as [->| ->]; reflexivity. Qed.

Lemma quote_not_word_or_space (c : char) :
  is_quote c = true -> is_word_or_space c = false.
Proof.
  intros H. unfold is_word_or_space.
  now rewrite quote_not_word, quote_not_space.
Qed.

Lemma denote_assign (name : string) (value : regex) (s : str) (g : groups)
  (s' : str) :
  denote (assign_re name value) s g s' <->
  exists ws1 ws2 s2,
    forallb is_space ws1 = true /\ forallb is_space ws2 = true /\
    s = lit name ++ ws1 ++ 61%N :: ws2 ++ s2 /\ denote value s2 g s'.
Proof.
  unfold assign_re. split.
  - intros (g1 & g2 & s1 & HS & H & ->). apply denote_Str in HS.
    destruct HS as [-> ->].
    destruct H as (g3 & g4 & s3 & (ws1 & -> & Hw1 & _ & ->) & H & ->).
    destruct H as (g5 & g6 & s5 & (-> & ->) & H & ->).
    destruct H as (g7 & g8 & s7 & (ws2 & -> & Hw2 & _ & ->) & H & ->).
    exists ws1, ws2, s7. simpl. auto.
  - intros (ws1 & ws2 & s2 & Hw1 & Hw2 & -> & H).
    exists [], g, (ws1 ++ 61%N :: ws2 ++ s2). split; [now apply denote_Str|].
    split; [|reflexivity].
    exists [], g, (61%N :: ws2 ++ s2). split.
    { exists ws1. repeat split; auto. lia. }
    split; [|reflexivity].
    exists [], g, (ws2 ++ s2). split; [split; reflexivity|].
    split; [|reflexivity].
    exists [], g, s2. split; [|split; [assumption | reflexivity]].
    exists ws2. repeat split; auto. lia.
Qed.

Lemma denote_bool (s : str) (g : groups) (s' : str) :
  denote bool_re s g s' <-> exists v, s = token v ++ s' /\ g = [(1, token v)].
Proof.
  unfold bool_re. cbn [denote]. split.
  - intros (l & g0 & E & [H|H] & ->); apply denote_Str in H;
      destruct H as [E' ->]; rewrite E' in E; apply app_inv_tail in E;
      subst l; [exists true | exists false]; auto.
  - intros ([|] & -> & ->); simpl token.
    + exists (lit "True"), []. repeat split. left. now apply denote_Str.
    + exists (lit "False"), []. repeat split. right. now apply denote_Str.
Qed.

Lemma denote_quoted (p : char -> bool) (s : str) (g : groups) (s' : str) :
  denote (quoted_re (Rep 1 p)) s g s' <->
  exists q1 v q2,
    is_quote q1 = true /\ is_quote q2 = true /\ forallb p v = true /\
    v <> [] /\ s = q1 :: v ++ q2 :: s' /\ g = [(1, v)].
Proof.
  unfold quoted_re. cbn [denote]. split.
  - intros (g1 & g2 & s1 & (q1 & Hq1 & -> & ->) & H & ->).
    destruct H as (g3 & g4 & s3 & H & (q2 & Hq2 & -> & ->) & ->).
    destruct H as (l & g0 & E & (v & E' & Hv & Hlen & ->) & ->).
    rewrite E' in E. apply app_inv_tail in E. subst l s1.
    exists q1, v, q2. repeat split; auto.
    intros ->. simpl in Hlen. lia.
  - intros (q1 & v & q2 & Hq1 & Hq2 & Hv & Hne & -> & ->).
    exists [], [(1, v)], (v ++ q2 :: s'). split; [exists q1; auto|].
    split; [|reflexivity].
    exists [(1, v)], [], (q2 :: s'). split; [|split; [exists q2; auto | reflexivity]].
    exists v, []. repeat split. exists v. repeat split; auto.
    destruct v; [congruence | simpl; lia].
Qed.

(** *** Boolean assignments *)

Lemma assigns_bool_denote (name : string) (s : str) (g : groups) (s' : str) :
  denote (assign_re name bool_re) s g s' ->
  exists v, assigns_bool name v s /\ g = [(1, token v)].
Proof.
  intros H. apply denote_assign in H.
  destruct H as (ws1 & ws2 & s2 & H1 & H2 & -> & H).
  apply denote_bool in H. destruct H as (v & -> & ->).
  exists v. split; [|reflexivity]. exists ws1, ws2, s'. auto.
Qed.

Lemma denote_assigns_bool (name : string) (v : bool) (s : str) :
  assigns_bool name v s ->
  exists s', denote (assign_re name bool_re) s [(1, token v)] s'.
Proof.
  intros (ws1 & ws2 & rest & H1 & H2 & ->). exists rest.
  apply denote_assign. exists ws1, ws2, (token v ++ rest).
  repeat split; auto. apply denote_bool. exists v. auto.
Qed.

Lemma assigns_bool_unique (name : string) (v v' : bool) (s : str) :
  assigns_bool name v s -> assigns_bool name v' s -> v = v'.
Proof.
  intros (a1 & a2 & r & Ha1 & Ha2 & ->) (b1 & b2 & r' & Hb1 & Hb2 & E).
  apply app_inv_head in E.
  apply (span_unique is_space) in E; auto.
  destruct E as (_ & _ & E).
  destruct v, v'; auto; simpl in E;
    apply (span_unique is_space) in E; auto;
    destruct E as (_ & E & _); discriminate.
Qed.

Lemma search_assigns_bool (name : string) (content : str) (i : nat) (v : bool) :
  first_at (assigns_bool name) content i v ->
  search (assign_re name bool_re) content = Some [(1, token v)].
Proof.
  intros (_ & Hat & Hlt).
  destruct (denote_assigns_bool Hat) as [s' Hd].
  apply run_denote in Hd.
  destruct (run (assign_re name bool_re) (skipn i content)) as [|[g r] rest] eqn:E;
    [destruct Hd|].
  assert (Hm : denote (assign_re name bool_re) (skipn i content) g r).
  { apply run_denote. rewrite E. now left. }
  apply assigns_bool_denote in Hm. destruct Hm as (v' & Hv' & ->).
  rewrite (assigns_bool_unique Hat Hv').
  apply (@search_first _ content i ([(1, token v')], r) rest); [|exact E].
  intros j Hj. apply run_nil. intros g0 s0 H0.
  apply assigns_bool_denote in H0. destruct H0 as (v0 & H0 & _).
  exact (Hlt j v0 Hj H0).
Qed.

Lemma search_no_bool (name : string) (content : str) :
  nowhere (assigns_bool name) content ->
  search (assign_re name bool_re) content = None.
Proof.
  intros H. apply search_none. intros j Hj. apply run_nil.
  intros g0 s0 H0. apply assigns_bool_denote in H0.
  destruct H0 as (v0 & H0 & _). exact (H j v0 Hj H0).
Qed.

(** *** Quoted assignments *)

Section Quoted.
Variable p : char -> bool.
Hypothesis p_no_quote : forall c, is_quote c = true -> p c = false.

Lemma assigns_quoted_denote (name : string) (s : str) (g : groups) (s' : str) :
  denote (assign_re name (quoted_re (Rep 1 p))) s g s' ->
  exists v, assigns_quoted name p v s /\ g = [(1, v)].
Proof.
  intros H. apply denote_assign in H.
  destruct H as (ws1 & ws2 & s2 & H1 & H2 & -> & H).
  apply denote_quoted in H.
  destruct H as (q1 & v & q2 & Hq1 & Hq2 & Hv & Hne & -> & ->).
  exists v. split; [|reflexivity]. exists ws1, ws2, q1, q2, s'.
  repeat split; auto.
Qed.

Lemma denote_assigns_quoted (name : string) (v s : str) :
  assigns_quoted name p v s ->
  exists s', denote (assign_re name (quoted_re (Rep 1 p))) s [(1, v)] s'.
Proof.
  intros (ws1 & ws2 & q1 & q2 & rest & H1 & H2 & Hq1 & Hq2 & Hne & Hv & ->).
  exists rest. apply denote_assign.
  exists ws1, ws2, (q1 :: v ++ q2 :: rest). repeat split; auto.
  apply denote_quoted. exists q1, v, q2. repeat split; auto.
Qed.

Lemma assigns_quoted_unique (name : string) (v v' s : str) :
  assigns_quoted name p v s -> assigns_quoted name p v' s -> v = v'.
Proof.
  intros (a1 & a2 & q1 & q2 & r & Ha1 & Ha2 & Hq1 & Hq2 & _ & Hv & ->)
         (b1 & b2 & q1' & q2' & r' & Hb1 & Hb2 & Hq1' & Hq2' & _ & Hv' & E).
  apply app_inv_head in E.
  apply (span_unique is_space) in E; auto.
  destruct E as (_ & _ & E).
  apply (span_unique is_space) in E; auto using quote_not_space.
  destruct E as (_ & _ & E).
  apply (span_unique p) in E; auto.
  now destruct E.
Qed.

Lemma search_assigns_quoted (name : string) (content : str) (i : nat)
  (v : str) :
  first_at (assigns_quoted name p) content i v ->
  search (assign_re name (quoted_re (Rep 1 p))) content = Some [(1, v)].
Proof.
  intros (_ & Hat & Hlt).
  destruct (denote_assigns_quoted Hat) as [s' Hd].
  apply run_denote in Hd.
  destruct (run (assign_re name (quoted_re (Rep 1 p))) (skipn i content))
    as [|[g r] rest] eqn:E; [destruct Hd|].
  assert (Hm : denote (assign_re name (quoted_re (Rep 1 p)))
                      (skipn i content) g r).
  { apply run_denote. rewrite E. now left. }
  apply assigns_quoted_denote in Hm. destruct Hm as (v' & Hv' & ->).
  rewrite (assigns_quoted_unique Hat Hv').
  apply (@search_first _ content i ([(1, v')], r) rest); [|exact E].
  intros j Hj. apply run_nil. intros g0 s0 H0.
  apply assigns_quoted_denote in H0. destruct H0 as (v0 & H0 & _).
  exact (Hlt j v0 Hj H0).
Qed.

Lemma search_no_quoted (name : string) (content : str) :
  nowhere (assigns_quoted name p) content ->
  search (assign_re name (quoted_re (Rep 1 p))) content = None.
Proof.
  intros H. apply search_none. intros j Hj. apply run_nil.
  intros g0 s0 H0. apply assigns_quoted_denote in H0.
  destruct H0 as (v0 & H0 & _). exact (H j v0 Hj H0).
Qed.

End Quoted.

(** What the extractor returns when the file can be read. *)
Lemma extract_read (f : FS) (init_file : Path) (content : str) :
  fs_read f init_file = inl content ->
  extract_service_info f init_file =
  (Returned
     (name (parent init_file),
      match search stream_type_re content with
      | Some m => group1 m | None => lit "N/A" end,
      match search drm_re content with
      | Some m => str_eqb (group1 m) (lit "True") | None => false end,
      match search deprecate_re content with
      | Some m => str_eqb (group1 m) (lit "True") | None => false end,
      match search max_resolution_re content with
      | Some m => group1 m | None => lit "N/A" end,
      match search region_re content with
      | Some m => group1 m | None => lit "N/A" end),
   []).
Proof.
  intros H. unfold extract_service_info, open_read. rewrite H. reflexivity.
Qed.

(** What it returns when reading raises. *)
Lemma extract_failed (f : FS) (init_file : Path) (e : str) :
  fs_read f init_file = inr e ->
  extract_service_info f init_file =
  (Returned (default_info (name (parent init_file))),
   [Print (lit "Error reading " ++ path_str init_file ++ lit ": " ++ e)]).
Proof.
  intros H. unfold extract_service_info, open_read. rewrite H. reflexivity.
Qed.

End WithUnicode.
End PatternFacts.

(* ================================================================== *)
(** ** Facts about strings, sorting and the table *)

Module RenderFacts.
Import Py Re Env Script Spec.

(** *** The order on strings *)

Lemma str_eqb_eq (a : str) : forall b, str_eqb a b = true <-> a = b.
Proof.
  induction a as [|x a IH]; intros [|y b]; simpl; split; try congruence;
    try discriminate.
  - intros H. apply andb_true_iff in H. destruct H as [Hx Ha].
    apply N.eqb_eq in Hx. apply IH in Ha. now subst.
  - intros H. inversion H; subst. rewrite N.eqb_refl. now apply IH.
Qed.

Lemma str_ltb_irrefl (a : str) : str_ltb a a = false.
Proof.
  induction a as [|x a IH]; simpl; [reflexivity|].
  now rewrite N.ltb_irrefl.
Qed.

Lemma str_ltb_asym (a : str) : forall b, str_ltb a b = true -> str_ltb b a = false.
Proof.
  induction a as [|x a IH]; intros [|y b] H; simpl in *; try congruence.
  destruct (N.ltb_spec x y), (N.ltb_spec y x); try lia; try congruence.
  now apply IH.
Qed.

(** "Not below" is transitive. *)
Lemma str_le_trans (a : str) :
  forall b c, str_ltb b a = false -> str_ltb c b = false -> str_ltb c a = false.
Proof.
  induction a as [|x a IH]; intros [|y b] [|z c] H1 H2; simpl in *;
    try congruence.
  destruct (N.ltb_spec y x), (N.ltb_spec x y), (N.ltb_spec z y),
    (N.ltb_spec y z), (N.ltb_spec z x), (N.ltb_spec x z);
    try lia; try congruence.
  eapply IH; eassumption.
Qed.

(** *** [sorted] *)

Section SortedFacts.
Variables (A K : Type) (ltb : K -> K -> bool) (key : A -> K).
Hypothesis ltb_asym : forall a b, ltb a b = true -> ltb b a = false.
Hypothesis le_trans :
  forall a b c, ltb b a = false -> ltb c b = false -> ltb c a = false.

Let le (a b : A) : Prop := ltb (key b) (key a) = false.

Lemma insert_perm (x : A) (l : list A) :
  Permutation (x :: l) (insert ltb key x l).
Proof.
  induction l as [|y l IH]; simpl; [constructor; constructor|].
  destruct (ltb (key y) (key x)); [|apply Permutation_refl].
  eapply perm_trans; [apply perm_swap|]. now constructor.
Qed.

Lemma sorted_perm (l : list A) : Permutation l (sorted ltb key l).
Proof.
  induction l as [|x l IH]; simpl; [constructor|].
  eapply perm_trans; [|apply insert_perm]. now constructor.
Qed.

Lemma insert_sorted (x : A) (l : list A) :
  StronglySorted le l -> StronglySorted le (insert ltb key x l).
Proof.
  induction 1 as [|y l Hs IH Hy]; simpl.
  - constructor; constructor.
  - destruct (ltb (key y) (key x)) eqn:E.
    + constructor; [exact IH|].
      rewrite Forall_forall in *. intros z Hz.
      apply (Permutation_in _ (Permutation_sym (insert_perm x l))) in Hz.
      destruct Hz as [<-|Hz]; [unfold le; now apply ltb_asym | now apply Hy].
    + constructor; [now constructor|].
      constructor; [exact E|].
      rewrite Forall_forall in *. intros z Hz. unfold le.
      apply le_trans with (b := key y); [exact E | exact (Hy z Hz)].
Qed.

Lemma sorted_sorted (l : list A) : StronglySorted le (sorted ltb key l).
Proof.
  induction l as [|x l IH]; simpl; [constructor | now apply insert_sorted].
Qed.

End SortedFacts.

(** *** Padding and widths *)

Lemma ljust_padded (c : str) (w : nat) : ljust c w = padded c w.
Proof.
  unfold ljust, padded. destruct (Nat.leb_spec w (len c)) as [H|H];
    [|reflexivity].
  replace (w - len c) with 0 by lia. simpl. now rewrite app_nil_r.
Qed.

Lemma len_padded (c : str) (w : nat) : len c <= w -> len (padded c w) = w.
Proof.
  intros H. unfold padded, len in *. rewrite length_app, repeat_length. lia.
Qed.

Lemma width_widen (k : nat) (m : Widths) (r : Row) :
  k < 5 -> width k (widen m r) = Nat.max (width k m) (len (cell k r)).
Proof.
  destruct m as [[[[w1 w2] w3] w4] w5], r as [[[[c1 c2] c3] c4] c5].
  intros H. do 5 (destruct k as [|k]; [reflexivity|]). lia.
Qed.

Lemma width_fold_widen (k : nat) (data : list Row) :
  k < 5 ->
  forall m, width k (fold_left widen data m)
            = Nat.max (width k m) (list_max (map (fun r => len (cell k r)) data)).
Proof.
  intros Hk. induction data as [|r data IH]; intros m; simpl.
  - lia.
  - rewrite IH, width_widen by exact Hk. lia.
Qed.

Lemma width_col_widths (k : nat) (data : list Row) :
  k < 5 ->
  width k (col_widths data)
  = list_max (len (cell k headers) :: map (fun r => len (cell k r)) data).
Proof.
  intros Hk. unfold col_widths. rewrite width_fold_widen by exact Hk.
  do 5 (destruct k as [|k]; [reflexivity|]). lia.
Qed.

Lemma cell_fits (k : nat) (data : list Row) (r : Row) :
  k < 5 -> r = headers \/ In r data -> len (cell k r) <= width k (col_widths data).
Proof.
  intros Hk Hr. rewrite width_col_widths by exact Hk.
  assert (Hall : Forall (fun n => n <= list_max
            (len (cell k headers) :: map (fun r => len (cell k r)) data))
            (len (cell k headers) :: map (fun r => len (cell k r)) data)).
  { apply list_max_le. lia. }
  rewrite Forall_forall in Hall. apply Hall.
  destruct Hr as [->|Hr]; [now left|]. right.
  apply in_map_iff. now exists r.
Qed.

Lemma format_row_bars (m : Widths) (r : Row) :
  format_row m r
  = bar_row (map (fun k => padded (cell k r) (width k m)) (seq 0 5)).
Proof.
  destruct m as [[[[w1 w2] w3] w4] w5], r as [[[[c1 c2] c3] c4] c5].
  unfold format_row, bar_row. rewrite !ljust_padded.
  cbn [seq map join cell width cells widths nth].
  now rewrite <- !app_assoc.
Qed.

(** *** The lines *)

Lemma fold_left_append (A B : Type) (f : A -> B) (l : list A) :
  forall init, fold_left (fun lines x => lines ++ [f x]) l init = init ++ map f l.
Proof.
  induction l as [|x l IH]; intros init; simpl.
  - now rewrite app_nil_r.
  - rewrite IH, <- app_assoc. reflexivity.
Qed.

Section WithUnicode.
Context {U : UnicodeData}.

Lemma table_lines_parts (services : list Service) (now : datetime) :
  table_lines services now
  = preamble (col_widths (make_table_data services))
    ++ map (format_row (col_widths (make_table_data services)))
           (make_table_data services)
    ++ trailer now.
Proof.
  unfold table_lines. rewrite fold_left_append.
  unfold preamble, trailer, stamp_line. cbn [app].
  rewrite <- !app_assoc. reflexivity.
Qed.

Lemma sort_key_lower (x : Service) : sort_key x = lower (service_name_of x).
Proof. now destruct x as [[[[? ?] ?] ?] ?]. Qed.

(** *** [title] *)

Lemma title_from_pieces (s : str) :
  forall before prev,
    title_from before prev s = List.concat (title_pieces before prev s).
Proof.
  induction s as [|c t IH]; intros before prev; simpl; [reflexivity|].
  now rewrite IH.
Qed.

Lemma length_title_pieces (s : str) :
  forall before prev, List.length (title_pieces before prev s) = len s.
Proof.
  induction s as [|c t IH]; intros before prev; simpl; [reflexivity|].
  unfold len in *. simpl. now rewrite IH.
Qed.

(** A space stays a space wherever it stands. *)
Lemma title_piece_space (s : str) :
  forall before prev i,
    nth_error s i = Some 32%N ->
    nth_error (title_pieces before prev s) i = Some [32%N].
Proof.
  induction s as [|c t IH]; intros before prev [|i] H; simpl in *;
    try discriminate.
  - inversion H; subst. now destruct prev.
  - now apply IH.
Qed.

(** A character that begins the string or follows an uncased character is
    title-cased. *)
Lemma title_piece_start (s : str) :
  forall before prev i c,
    nth_error s i = Some c ->
    (i = 0 /\ prev = false) \/
    (exists u, 0 < i /\ nth_error s (i - 1) = Some u /\ is_cased u = false) ->
    nth_error (title_pieces before prev s) i = Some (to_title_full c).
Proof.
  induction s as [|c0 t IH]; intros before prev [|i] c H Hs; simpl in *;
    try discriminate.
  - inversion H; subst. destruct Hs as [[_ ->]|(u & Hi & _)]; [reflexivity|lia].
  - apply IH; [exact H|]. destruct Hs as [[Hi _]|(u & _ & Hu & Hc)]; [lia|].
    rewrite Nat.sub_0_r in Hu. destruct i as [|i].
    + left. simpl in Hu. inversion Hu; subst. auto.
    + right. exists u. simpl in *. rewrite Nat.sub_0_r. repeat split; auto. lia.
Qed.

End WithUnicode.
End RenderFacts.

(* ================================================================== *)
(** ** Facts about the run *)

Module MainFacts.
Import Py Re Env Script Spec PatternFacts RenderFacts.
Local Open Scope py_scope.

Lemma join_snoc (sep : str) (l : list str) (x : str) :
  l <> [] -> join sep (l ++ [x]) = join sep l ++ sep ++ x.
Proof.
  induction l as [|a l IH]; intros H; [congruence|].
  destruct l as [|b l]; [reflexivity|].
  change (join sep ((a :: b :: l) ++ [x]))
    with (a ++ sep ++ join sep ((b :: l) ++ [x])).
  rewrite IH by discriminate.
  change (join sep (a :: b :: l)) with (a ++ sep ++ join sep (b :: l)).
  now rewrite <- !app_assoc.
Qed.

Section WithUnicode.
Context {U : UnicodeData}.

(** The extractor always returns. *)
Lemma extract_total (f : FS) (init_file : Path) :
  extract_service_info f init_file
  = (Returned (record_of f init_file), log_of f init_file).
Proof.
  unfold record_of, log_of.
  destruct (fs_read f init_file) as [content|e] eqn:E.
  - now rewrite (extract_read _ _ E).
  - now rewrite (extract_failed _ _ E).
Qed.

(** The extractor only prints. *)
Lemma log_of_prints (f : FS) (init_file : Path) :
  forallb is_print (log_of f init_file) = true.
Proof.
  unfold log_of. destruct (fs_read f init_file) as [content|e] eqn:E.
  - now rewrite (extract_read _ _ E).
  - now rewrite (extract_failed _ _ E).
Qed.

Lemma fold_candidates (f : FS) (entries : list Path) :
  forall init_files,
    fold_left (fun init_files service_dir =>
      if fs_is_dir f service_dir
         && negb (startswith (name service_dir) (lit "__"))
      then
        let init_file := service_dir // "__init__.py" in
        if fs_exists f init_file then init_files ++ [init_file]
        else init_files
      else init_files) entries init_files
    = init_files ++ candidates f entries.
Proof.
  unfold candidates.
  induction entries as [|d entries IH]; intros init_files;
    cbn [fold_left filter map].
  - now rewrite app_nil_r.
  - rewrite IH.
    destruct (fs_is_dir f d && negb (startswith (name d) (lit "__")));
      cbn [andb]; [|reflexivity].
    destruct (fs_exists f (d // "__init__.py")); cbn [map]; [|reflexivity].
    now rewrite <- app_assoc.
Qed.

(** The three outcomes of discovery: the services directory is missing,
    listing it raises, or it lists its entries. *)
Lemma find_cases (f : FS) (base_path : Path) :
  find_service_files f base_path
  = if fs_exists f (base_path // "StreamingCommunity" // "Api" // "Service")
    then
      match
        fs_listdir f (base_path // "StreamingCommunity" // "Api" // "Service")
      with
      | inl names =>
          (Returned
             (sorted path_ltb (fun p => p)
                (candidates f
                   (map (child
                           (base_path // "StreamingCommunity" // "Api"
                            // "Service"))
                        names))),
           [])
      | inr e => (Raised e, [])
      end
    else
      (Returned [],
       [Print (lit "Services path not found: "
               ++ path_str
                    (base_path // "StreamingCommunity" // "Api" // "Service"))]).
Proof.
  unfold find_service_files, iterdir.
  destruct (fs_exists f _); [|reflexivity]. cbn [negb].
  destruct (fs_listdir f _) as [names|e]; [|reflexivity].
  unfold bind, ret. now rewrite fold_candidates.
Qed.

(** Discovery only prints. *)
Lemma find_prints (f : FS) (base_path : Path) :
  forallb is_print (snd (find_service_files f base_path)) = true.
Proof.
  rewrite find_cases. destruct (fs_exists f _); [|reflexivity].
  now destruct (fs_listdir f _).
Qed.

(** One turn of the loop of [main]. *)
Lemma collect_step (f : FS) (services : list Service) (count : nat)
  (init_file : Path) :
  collect f (services, count) init_file
  = (Returned (services ++ kept [record_of f init_file],
               count + List.length (dropped [record_of f init_file])),
     log_of f init_file).
Proof.
  unfold collect. rewrite extract_total.
  destruct (record_of f init_file) as [[[[[n st] drm] dep] res] reg].
  unfold kept, dropped. destruct dep; simpl.
  - now rewrite !app_nil_r.
  - now rewrite !app_nil_r, Nat.add_0_r.
Qed.

Lemma kept_cons (r : ServiceInfo) (l : list ServiceInfo) :
  kept (r :: l) = kept [r] ++ kept l.
Proof. unfold kept. simpl. now destruct (negb (info_deprecate r)). Qed.

Lemma dropped_cons (r : ServiceInfo) (l : list ServiceInfo) :
  List.length (dropped (r :: l))
  = List.length (dropped [r]) + List.length (dropped l).
Proof. unfold dropped. simpl. now destruct (info_deprecate r). Qed.

(** The whole loop. *)
Lemma collect_all (f : FS) (init_files : list Path) :
  forall services count,
    for_each init_files (collect f) (services, count)
    = (Returned (services ++ kept (map (record_of f) init_files),
                 count + List.length (dropped (map (record_of f) init_files))),
       List.concat (map (log_of f) init_files)).
Proof.
  induction init_files as [|p ps IH]; intros services count.
  - simpl. unfold ret, kept, dropped. simpl.
    now rewrite app_nil_r, Nat.add_0_r.
  - cbn [for_each]. rewrite collect_step. unfold bind. rewrite IH.
    cbn [map List.concat]. f_equal. f_equal.
    rewrite (kept_cons (record_of f p) (map (record_of f) ps)),
      (dropped_cons (record_of f p) (map (record_of f) ps)).
    rewrite <- app_assoc. f_equal. lia.
Qed.

(** A run that finds nothing. *)
Lemma main_nothing_found (w : World) (t0 : list event) :
  find_service_files (fs w) (base_path_of w) = (Returned [], t0) ->
  main w
  = (Returned tt,
     Print (lit "Base path: " ++ path_str (base_path_of w)) :: t0
     ++ [Print (lit "Found 0 service files");
         Print (lit "No service files found!")]).
Proof.
  intros H. unfold main. fold (base_path_of w).
  unfold bind, print, emit. rewrite H. reflexivity.
Qed.

Lemma main_nothing_found_prints (w : World) (t0 : list event) :
  find_service_files (fs w) (base_path_of w) = (Returned [], t0) ->
  forallb is_print (snd (main w)) = true.
Proof.
  intros H. rewrite (main_nothing_found w H).
  pose proof (find_prints (fs w) (base_path_of w)) as Ht.
  rewrite H in Ht. cbn [snd] in Ht.
  cbn [snd forallb is_print andb]. rewrite forallb_app, Ht. reflexivity.
Qed.

(** A run in which discovery raises. *)
Lemma main_raised (w : World) (e : str) (t0 : list event) :
  find_service_files (fs w) (base_path_of w) = (Raised e, t0) ->
  main w
  = (Raised e,
     Print (lit "Base path: " ++ path_str (base_path_of w)) :: t0).
Proof.
  intros H. unfold main. fold (base_path_of w).
  unfold bind, print, emit. rewrite H. reflexivity.
Qed.

(** A run that finds something. *)
Lemma main_found (w : World) (init_files : list Path) (t0 : list event) :
  find_service_files (fs w) (base_path_of w) = (Returned init_files, t0) ->
  init_files <> [] ->
  let records := map (record_of (fs w)) init_files in
  main w
  = (Returned tt,
     (Print (lit "Base path: " ++ path_str (base_path_of w)) :: t0
      ++ Print (lit "Found " ++ str_of_nat (List.length init_files)
                ++ lit " service files")
      :: List.concat (map (log_of (fs w)) init_files))
     ++ [Print (lit "Deprecated services: "
                ++ str_of_nat (List.length (dropped records)));
         Now (clock w);
         Mkdir (parent (output_file_of w));
         WriteText (output_file_of w)
           (join [10%N] (table_lines (kept records) (clock w)))]).
Proof.
  intros H Hne records. unfold main. fold (base_path_of w).
  fold (output_file_of w).
  unfold bind at 1. unfold print at 1. unfold emit at 1.
  unfold bind at 1. rewrite H.
  destruct init_files as [|p ps]; [congruence|].
  unfold bind at 1. unfold print at 1. unfold emit at 1.
  unfold bind at 1. rewrite collect_all.
  unfold generate_markdown_table, datetime_now, print, emit, bind, ret.
  cbn [app fst snd]. f_equal. f_equal.
  rewrite <- !app_assoc. cbn [app]. reflexivity.
Qed.

(** The document is a body that does not depend on the clock, then the
    stamp line and a line feed. *)
Lemma document_parts (services : list Service) (now : datetime) :
  join [10%N] (table_lines services now)
  = (join [10%N]
       (preamble (col_widths (make_table_data services))
        ++ map (format_row (col_widths (make_table_data services)))
               (make_table_data services)
        ++ [[]; lit "---"; []])
     ++ [10%N])
    ++ stamp_line now ++ [10%N].
Proof.
  rewrite table_lines_parts. unfold trailer.
  set (rows := map _ _). set (pre := preamble _).
  replace (pre ++ rows ++ [[]; lit "---"; []; stamp_line now; []])
    with (((pre ++ rows ++ [[]; lit "---"; []]) ++ [stamp_line now]) ++ [[]])
    by (rewrite <- !app_assoc; reflexivity).
  rewrite !join_snoc.
  - rewrite app_nil_r, <- !app_assoc. reflexivity.
  - unfold pre, preamble. discriminate.
  - intros E. apply app_eq_nil in E. destruct E. discriminate.
Qed.

End WithUnicode.
End MainFacts.

(* ================================================================== *)
(** ** Facts about the order of discovery *)

Module OrderFacts.
Import Py Re Env Script Spec PatternFacts RenderFacts MainFacts.

(** *** Lexicographic orders *)

Section Lex.
Variables (A : Type) (lt : A -> A -> bool).
Hypothesis lt_asym : forall a b, lt a b = true -> lt b a = false.
Hypothesis lt_le_trans :
  forall a b c, lt b a = false -> lt c b = false -> lt c a = false.
Hypothesis lt_total : forall a b, lt a b = false -> lt b a = false -> a = b.

Lemma lex_asym (a : list A) :
  forall b, lex_ltb lt a b = true -> lex_ltb lt b a = false.
Proof.
  induction a as [|x a IH]; intros [|y b] H; simpl in *; try congruence.
  destruct (lt x y) eqn:Exy.
  - now rewrite (lt_asym Exy).
  - destruct (lt y x) eqn:Eyx; [discriminate|]. now apply IH.
Qed.

Lemma lex_le_trans (a : list A) :
  forall b c, lex_ltb lt b a = false -> lex_ltb lt c b = false ->
              lex_ltb lt c a = false.
Proof.
  induction a as [|x a IH]; intros [|y b] [|z c] H1 H2; simpl in *;
    try congruence.
  destruct (lt y x) eqn:Eyx; [discriminate|].
  destruct (lt z y) eqn:Ezy; [discriminate|].
  rewrite (lt_le_trans Eyx Ezy).
  destruct (lt x z) eqn:Exz; [reflexivity|].
  assert (x = z) by (apply lt_total; [exact Exz | exact (lt_le_trans Eyx Ezy)]).
  subst z. rewrite Ezy in H1. rewrite Eyx in H2. now apply (IH b c).
Qed.

Lemma lex_total (a : list A) :
  forall b, lex_ltb lt a b = false -> lex_ltb lt b a = false -> a = b.
Proof.
  induction a as [|x a IH]; intros [|y b] H1 H2; simpl in *;
    try congruence.
  destruct (lt x y) eqn:Exy; [discriminate|].
  destruct (lt y x) eqn:Eyx; [discriminate|].
  rewrite (lt_total Exy Eyx). f_equal. now apply IH.
Qed.

End Lex.

Lemma str_ltb_lex (a : str) : forall b, str_ltb a b = lex_ltb N.ltb a b.
Proof.
  induction a as [|x a IH]; intros [|y b]; simpl; try reflexivity.
  now rewrite IH.
Qed.

Lemma strs_ltb_lex (a : list str) : forall b, strs_ltb a b = lex_ltb str_ltb a b.
Proof.
  induction a as [|x a IH]; intros [|y b]; simpl; try reflexivity.
  now rewrite IH.
Qed.

Lemma str_ltb_total (a b : str) :
  str_ltb a b = false -> str_ltb b a = false -> a = b.
Proof.
  rewrite !str_ltb_lex. apply lex_total.
  intros x y Hxy Hyx. apply N.ltb_ge in Hxy, Hyx. lia.
Qed.

Lemma path_ltb_asym (a b : Path) : path_ltb a b = true -> path_ltb b a = false.
Proof.
  unfold path_ltb. rewrite !strs_ltb_lex. apply lex_asym, str_ltb_asym.
Qed.

Lemma path_le_trans (a b c : Path) :
  path_ltb b a = false -> path_ltb c b = false -> path_ltb c a = false.
Proof.
  unfold path_ltb. rewrite !strs_ltb_lex.
  apply lex_le_trans; [exact str_le_trans | exact str_ltb_total].
Qed.

Lemma path_ltb_total (a b : Path) :
  path_ltb a b = false -> path_ltb b a = false -> a = b.
Proof.
  unfold path_ltb. rewrite !strs_ltb_lex. intros H1 H2.
  assert (E : anchor a :: parts a = anchor b :: parts b)
    by (apply (@lex_total _ str_ltb str_ltb_total); assumption).
  destruct a, b. simpl in E. now inversion E.
Qed.

(** *** A sorted arrangement is unique *)

Section Unique.
Variables (A : Type) (le : A -> A -> Prop).
Hypothesis le_antisym : forall a b, le a b -> le b a -> a = b.

Lemma sorted_unique (l1 : list A) :
  forall l2, StronglySorted le l1 -> StronglySorted le l2 ->
             Permutation l1 l2 -> l1 = l2.
Proof.
  induction l1 as [|x l1 IH]; intros l2 S1 S2 P.
  - apply Permutation_nil in P. now subst.
  - destruct l2 as [|y l2];
      [apply Permutation_sym, Permutation_nil in P; discriminate|].
    inversion S1 as [|? ? S1' F1]; subst.
    inversion S2 as [|? ? S2' F2]; subst.
    rewrite Forall_forall in F1, F2.
    assert (x = y).
    { assert (Hy : In y (x :: l1))
        by (apply (Permutation_in _ (Permutation_sym P)); now left).
      assert (Hx : In x (y :: l2)) by (apply (Permutation_in _ P); now left).
      destruct Hy as [E|Hy]; [exact E|].
      destruct Hx as [E|Hx]; [now symmetry|].
      apply le_antisym; [now apply F1 | now apply F2]. }
    subst y. f_equal. apply IH; auto.
    now apply Permutation_cons_inv in P.
Qed.

End Unique.

Lemma sorted_paths_permutation (l1 l2 : list Path) :
  Permutation l1 l2 ->
  sorted path_ltb (fun p => p) l1 = sorted path_ltb (fun p => p) l2.
Proof.
  intros P.
  apply (@sorted_unique _ (fun a b => path_ltb b a = false)).
  - intros a b Hab Hba. now apply path_ltb_total.
  - apply (sorted_sorted path_ltb (fun p => p));
      [exact path_ltb_asym | exact path_le_trans].
  - apply (sorted_sorted path_ltb (fun p => p));
      [exact path_ltb_asym | exact path_le_trans].
  - eapply perm_trans; [apply Permutation_sym, sorted_perm|].
    eapply perm_trans; [exact P | apply sorted_perm].
Qed.

(** *** Discovery *)

Lemma filter_permutation (A : Type) (p : A -> bool) (l1 l2 : list A) :
  Permutation l1 l2 -> Permutation (filter p l1) (filter p l2).
Proof.
  induction 1 as [|x l1 l2 _ IH|x y l|l1 l2 l3 _ IH1 _ IH2]; simpl.
  - constructor.
  - destruct (p x); [now constructor | exact IH].
  - destruct (p x), (p y); try apply Permutation_refl. apply perm_swap.
  - eapply perm_trans; eassumption.
Qed.

Lemma candidates_agree (f1 f2 : FS) (l1 l2 : list Path) :
  (forall d, In d l1 ->
             fs_is_dir f1 d = fs_is_dir f2 d /\
             fs_exists f1 (d // "__init__.py")
             = fs_exists f2 (d // "__init__.py")) ->
  Permutation l1 l2 ->
  Permutation (candidates f1 l1) (candidates f2 l2).
Proof.
  intros H P. unfold candidates. apply Permutation_map.
  rewrite (filter_ext_in _ (fun d => fs_is_dir f2 d
                                     && negb (startswith (name d) (lit "__"))
                                     && fs_exists f2 (d // "__init__.py")))
    by (intros d Hd; destruct (H d Hd) as [-> ->]; reflexivity).
  now apply filter_permutation.
Qed.

Lemma candidates_from_entries (f : FS) (entries : list Path) (p : Path) :
  In p (candidates f entries) ->
  exists d, In d entries /\ p = d // "__init__.py".
Proof.
  unfold candidates. rewrite in_map_iff. intros (d & <- & Hd).
  apply filter_In in Hd. exists d. now destruct Hd.
Qed.

(** *** Paths at and below a directory *)

Lemma str_eqb_refl (a : str) : str_eqb a a = true.
Proof. now apply str_eqb_eq. Qed.

Lemma is_prefix_refl (a : list str) : is_prefix a a = true.
Proof.
  induction a as [|x a IH]; [reflexivity|]. simpl.
  now rewrite str_eqb_refl, IH.
Qed.

Lemma is_prefix_app (a : list str) :
  forall b c, is_prefix a b = true -> is_prefix a (b ++ c) = true.
Proof.
  induction a as [|x a IH]; intros [|y b] c H; simpl in *;
    try reflexivity; try discriminate.
  apply andb_true_iff in H. destruct H as [-> H]. simpl. now apply IH.
Qed.

Lemma is_prefix_trans (a : list str) :
  forall b c, is_prefix a b = true -> is_prefix b c = true ->
              is_prefix a c = true.
Proof.
  induction a as [|x a IH]; intros [|y b] [|z c] H1 H2; simpl in *;
    try reflexivity; try discriminate.
  apply andb_true_iff in H1, H2. destruct H1 as [Hx H1], H2 as [Hy H2].
  apply str_eqb_eq in Hx, Hy. subst. rewrite str_eqb_refl. simpl.
  now apply (IH b c).
Qed.

Lemma is_prefix_common (b : list str) :
  forall x y, is_prefix (b ++ x) (b ++ y) = is_prefix x y.
Proof.
  induction b as [|c b IH]; intros x y; [reflexivity|]. simpl.
  now rewrite str_eqb_refl, IH.
Qed.

Lemma reaches_refl (p : Path) : reaches p p = true.
Proof. unfold reaches. now rewrite str_eqb_refl, is_prefix_refl. Qed.

Lemma reaches_trans (a b c : Path) :
  reaches a b = true -> reaches b c = true -> reaches a c = true.
Proof.
  unfold reaches. intros H1 H2. apply andb_true_iff in H1, H2.
  destruct H1 as [Ha H1], H2 as [Hb H2]. apply str_eqb_eq in Ha, Hb.
  rewrite Ha, Hb, str_eqb_refl. simpl. now apply (is_prefix_trans _ (parts b)).
Qed.

Lemma reaches_child (a p : Path) (n : str) :
  reaches a p = true -> reaches a (child p n) = true.
Proof.
  unfold reaches, child. cbn [anchor parts]. intros H.
  apply andb_true_iff in H. destruct H as [-> H]. simpl.
  now apply is_prefix_app.
Qed.

Lemma reaches_div (a p : Path) (c : string) :
  reaches a p = true -> reaches a (p // c) = true.
Proof. apply reaches_child. Qed.

(** The services directory is not above the output file. *)
Lemma services_apart (base_path : Path) :
  reaches (base_path // "StreamingCommunity" // "Api" // "Service")
          (base_path // ".github" // "doc" // "site.md") = false.
Proof.
  unfold reaches, div. cbn [anchor parts]. rewrite str_eqb_refl.
  rewrite <- !app_assoc. cbn [app]. rewrite is_prefix_common. reflexivity.
Qed.

(** Nothing at or below the services directory is the output file or a
    directory above it. *)
Lemma below_services_untouched (base_path p : Path) :
  reaches (base_path // "StreamingCommunity" // "Api" // "Service") p = true ->
  reaches p (base_path // ".github" // "doc" // "site.md") = false.
Proof.
  intros H.
  destruct (reaches p (base_path // ".github" // "doc" // "site.md")) eqn:E;
    [|reflexivity].
  rewrite <- (services_apart base_path). symmetry.
  exact (reaches_trans _ _ _ H E).
Qed.

Lemma same_files_agree (f1 f2 : FS) :
  same_files f1 f2 -> forall p, agree_at f1 f2 p.
Proof. intros (He & Hd & Hr & Hl) p. repeat split; auto. Qed.

(** Discovery depends only on the answers at and below the services
    directory, and not on the order of its listing. *)
Lemma find_agree (f1 f2 : FS) (base_path : Path) :
  (forall p,
     reaches (base_path // "StreamingCommunity" // "Api" // "Service") p = true ->
     agree_at f1 f2 p) ->
  find_service_files f1 base_path = find_service_files f2 base_path.
Proof.
  intros H. rewrite !find_cases.
  set (sp := base_path // "StreamingCommunity" // "Api" // "Service") in *.
  destruct (H sp (reaches_refl sp)) as (He & _ & _ & Hl). rewrite He.
  destruct (fs_exists f2 sp); [|reflexivity].
  destruct (fs_listdir f1 sp) as [n1|e1], (fs_listdir f2 sp) as [n2|e2];
    simpl in Hl; try contradiction; [|now subst].
  f_equal. f_equal. apply sorted_paths_permutation, candidates_agree.
  - intros d Hd. apply in_map_iff in Hd. destruct Hd as (n & <- & _).
    assert (Hc : reaches sp (child sp n) = true)
      by apply reaches_child, reaches_refl.
    destruct (H _ Hc) as (_ & Hdir & _).
    destruct (H _ (@reaches_div sp (child sp n) "__init__.py"%string Hc))
      as (Hex & _).
    auto.
  - now apply Permutation_map.
Qed.

(** What discovery returns lies below the services directory. *)
Lemma found_below_services (f : FS) (base_path : Path)
  (init_files : list Path) (t0 : list event) :
  find_service_files f base_path = (Returned init_files, t0) ->
  forall p, In p init_files ->
    reaches (base_path // "StreamingCommunity" // "Api" // "Service") p = true.
Proof.
  rewrite find_cases.
  set (sp := base_path // "StreamingCommunity" // "Api" // "Service").
  destruct (fs_exists f sp).
  - destruct (fs_listdir f sp) as [names|e]; [|discriminate].
    intros E p Hp. inversion E; subst.
    apply (Permutation_in _ (Permutation_sym (sorted_perm _ _ _))) in Hp.
    apply candidates_from_entries in Hp. destruct Hp as (d & Hd & ->).
    apply in_map_iff in Hd. destruct Hd as (n & <- & _).
    apply reaches_div, reaches_child, reaches_refl.
  - intros E p Hp. inversion E; subst. destruct Hp.
Qed.

Lemma same_listing_refl (a : list str + str) : same_listing a a.
Proof. destruct a; simpl; [apply Permutation_refl | reflexivity]. Qed.

(** Writing [out] changes no answer elsewhere. *)
Lemma written_unchanged (f : FS) (out : Path) (doc : str) :
  unchanged_inputs out f (fs_written f out doc).
Proof.
  intros p Hp. unfold agree_at, fs_written. cbn [fs_exists fs_is_dir
    fs_read fs_listdir]. rewrite Hp. cbn [orb].
  repeat split. apply same_listing_refl.
Qed.

Lemma fs_after_prints (t : list event) :
  forallb is_print t = true -> forall f, fs_after f t = f.
Proof.
  unfold fs_after. induction t as [|ev t IH]; intros H f; [reflexivity|].
  simpl in H. apply andb_true_iff in H. destruct H as [Hev Ht].
  destruct ev; try discriminate Hev. simpl. now apply IH.
Qed.

Lemma fs_after_app (t1 t2 : list event) (f : FS) :
  fs_after f (t1 ++ t2) = fs_after (fs_after f t1) t2.
Proof. unfold fs_after. apply fold_left_app. Qed.

Section WithUnicode.
Context {U : UnicodeData}.

Lemma extract_agree (f1 f2 : FS) (init_file : Path) :
  agree_at f1 f2 init_file ->
  extract_service_info f1 init_file = extract_service_info f2 init_file.
Proof.
  intros (_ & _ & Hr & _). unfold extract_service_info, open_read.
  now rewrite Hr.
Qed.

Lemma record_of_agree (f1 f2 : FS) (p : Path) :
  agree_at f1 f2 p -> record_of f1 p = record_of f2 p.
Proof. intros H. unfold record_of. now rewrite (extract_agree H). Qed.

Lemma log_of_agree (f1 f2 : FS) (p : Path) :
  agree_at f1 f2 p -> log_of f1 p = log_of f2 p.
Proof. intros H. unfold log_of. now rewrite (extract_agree H). Qed.

(** A run depends only on the answers at and below the services
    directory. *)
Lemma main_agree (script : Path) (f1 f2 : FS) (t : datetime) :
  (forall p,
     reaches (services_path_of
                {| script_file := script; fs := f1; clock := t |}) p = true ->
     agree_at f1 f2 p) ->
  main {| script_file := script; fs := f1; clock := t |}
  = main {| script_file := script; fs := f2; clock := t |}.
Proof.
  intros H.
  set (w1 := {| script_file := script; fs := f1; clock := t |}) in *.
  set (w2 := {| script_file := script; fs := f2; clock := t |}).
  destruct (find_service_files (fs w2) (base_path_of w2))
    as [[files|e] t0] eqn:E2.
  - assert (E1 : find_service_files (fs w1) (base_path_of w1)
                 = (Returned files, t0))
      by (rewrite <- E2; apply (find_agree _ H)).
    destruct files as [|p ps].
    + now rewrite (main_nothing_found w1 E1), (main_nothing_found w2 E2).
    + assert (Hne : p :: ps <> []) by discriminate.
      rewrite (main_found w1 E1 Hne), (main_found w2 E2 Hne).
      cbn [fs w1 w2].
      assert (Hin : forall q, In q (p :: ps) -> agree_at f1 f2 q)
        by (intros q Hq; apply H; exact (found_below_services _ _ E1 q Hq)).
      rewrite (map_ext_in _ _ _ (fun q Hq => record_of_agree (Hin q Hq))),
        (map_ext_in _ _ _ (fun q Hq => log_of_agree (Hin q Hq))).
      reflexivity.
  - assert (E1 : find_service_files (fs w1) (base_path_of w1)
                 = (Raised e, t0))
      by (rewrite <- E2; apply (find_agree _ H)).
    now rewrite (main_raised w1 E1), (main_raised w2 E2).
Qed.

Lemma agree_at_refl (f : FS) (p : Path) : agree_at f f p.
Proof. repeat split. apply same_listing_refl. Qed.

Lemma log_prints (f : FS) (init_files : list Path) :
  forallb is_print (List.concat (map (log_of f) init_files)) = true.
Proof.
  induction init_files as [|p l IH]; [reflexivity|].
  cbn [map List.concat]. now rewrite forallb_app, log_of_prints, IH.
Qed.

(** What a run leaves behind answers like what it started from, except
    at the output file and the directories above it. *)
Lemma after_run_unchanged (w : World) :
  unchanged_inputs (output_file_of w) (fs w) (fs_after (fs w) (snd (main w))).
Proof.
  pose proof (find_prints (fs w) (base_path_of w)) as Ht.
  destruct (find_service_files (fs w) (base_path_of w))
    as [[files|e] t0] eqn:E; cbn [snd] in Ht.
  - destruct files as [|p ps].
    + rewrite fs_after_prints; [intros q _; apply agree_at_refl|].
      exact (main_nothing_found_prints w E).
    + assert (Hne : p :: ps <> []) by discriminate.
      rewrite (main_found w E Hne). cbn [snd].
      set (prints := Print (lit "Base path: " ++ path_str (base_path_of w))
                     :: t0 ++ Print (lit "Found "
                                     ++ str_of_nat (List.length (p :: ps))
                                     ++ lit " service files")
                        :: List.concat (map (log_of (fs w)) (p :: ps))).
      assert (Hp : forallb is_print prints = true).
      { unfold prints. cbn [forallb is_print andb]. rewrite forallb_app, Ht.
        cbn [forallb is_print andb]. apply log_prints. }
      rewrite fs_after_app, (fs_after_prints prints Hp).
      cbv beta iota delta [fs_after fold_left]. apply written_unchanged.
  - rewrite (main_raised w E). cbn [snd].
    rewrite fs_after_prints; [intros q _; apply agree_at_refl|].
    cbn [forallb is_print andb]. exact Ht.
Qed.

End WithUnicode.
End OrderFacts.

(* ================================================================== *)
(** ** The extractor *)

Section Extractor.
Import Py Re Env Script Spec ReFacts PatternFacts.
Context {U : UnicodeData}.

Lemma token_is_true (v : bool) : str_eqb (token v) (lit "True") = v.
Proof. now destruct v. Qed.

Lemma class_without_quotes (p : char -> bool) (v : str) :
  (forall c, is_quote c = true -> p c = false) ->
  forallb p v = true -> forallb (fun c => negb (is_quote c)) v = true.
Proof.
  intros Hp H. rewrite forallb_forall in *. intros c Hc.
  specialize (H c Hc). destruct (is_quote c) eqn:Q; [|reflexivity].
  rewrite (Hp c Q) in H. discriminate.
Qed.

Lemma assigned_text_in_class (name : string) (p : char -> bool) (v s : str) :
  assigns_quoted name p v s -> forallb p v = true.
Proof. now intros (? & ? & ? & ? & ? & _ & _ & _ & _ & _ & H & _). Qed.

(** C4. When the file is read, [drm] and [deprecate] are the truth value of
    the literal assigned at the leftmost offset where [_drm] (respectively
    [_deprecate]), optional white space, [=], optional white space and
    [True] or [False] occur; when there is no such offset the field is
    false. *)
Theorem boolean_fields_follow_first_literal
  (f : FS) (init_file : Path) (content : str) :
  fs_read f init_file = inl content ->
  exists r,
    extract_service_info f init_file = (Returned r, []) /\
    (forall i v, first_at (assigns_bool "_drm") content i v ->
                 info_drm r = v) /\
    (nowhere (assigns_bool "_drm") content -> info_drm r = false) /\
    (forall i v, first_at (assigns_bool "_deprecate") content i v ->
                 info_deprecate r = v) /\
    (nowhere (assigns_bool "_deprecate") content -> info_deprecate r = false).
Proof.
  intros H. rewrite (extract_read _ _ H). eexists. split; [reflexivity|].
  unfold info_drm, info_deprecate, drm_re, deprecate_re.
  repeat split.
  - intros i v Hv. rewrite (search_assigns_bool Hv). apply token_is_true.
  - intros Hn. now rewrite (search_no_bool Hn).
  - intros i v Hv. rewrite (search_assigns_bool Hv). apply token_is_true.
  - intros Hn. now rewrite (search_no_bool Hn).
Qed.

(** C5. When the file is read, each of [stream_type], [max_resolution] and
    [region] is exactly the text between the quote characters of the
    leftmost assignment its pattern matches -- no quote in it, nothing
    trimmed -- and is "N/A" when the pattern matches nowhere. *)
Theorem quoted_fields_are_captured_text
  (f : FS) (init_file : Path) (content : str) :
  fs_read f init_file = inl content ->
  exists r,
    extract_service_info f init_file = (Returned r, []) /\
    (forall i v,
        first_at (assigns_quoted "_stream_type" is_word) content i v ->
        info_stream_type r = v /\
        forallb (fun c => negb (is_quote c)) v = true) /\
    (nowhere (assigns_quoted "_stream_type" is_word) content ->
     info_stream_type r = lit "N/A") /\
    (forall i v,
        first_at (assigns_quoted "_maxResolution" is_word_or_space) content i v ->
        info_max_resolution r = v /\
        forallb (fun c => negb (is_quote c)) v = true) /\
    (nowhere (assigns_quoted "_maxResolution" is_word_or_space) content ->
     info_max_resolution r = lit "N/A") /\
    (forall i v,
        first_at (assigns_quoted "_region" is_word_or_space) content i v ->
        info_region r = v /\
        forallb (fun c => negb (is_quote c)) v = true) /\
    (nowhere (assigns_quoted "_region" is_word_or_space) content ->
     info_region r = lit "N/A").
Proof.
  intros H. rewrite (extract_read _ _ H). eexists. split; [reflexivity|].
  unfold info_stream_type, info_max_resolution, info_region,
    stream_type_re, max_resolution_re, region_re.
  repeat match goal with |- _ /\ _ => split end.
  - intros i v Hv. rewrite (search_assigns_quoted quote_not_word Hv).
    split; [reflexivity|].
    apply class_without_quotes with (p := is_word); [apply quote_not_word|].
    destruct Hv as (_ & Hv & _). exact (assigned_text_in_class Hv).
  - intros Hn. now rewrite (search_no_quoted Hn).
  - intros i v Hv. rewrite (search_assigns_quoted quote_not_word_or_space Hv).
    split; [reflexivity|].
    apply class_without_quotes with (p := is_word_or_space);
      [apply quote_not_word_or_space|].
    destruct Hv as (_ & Hv & _). exact (assigned_text_in_class Hv).
  - intros Hn. now rewrite (search_no_quoted Hn).
  - intros i v Hv. rewrite (search_assigns_quoted quote_not_word_or_space Hv).
    split; [reflexivity|].
    apply class_without_quotes with (p := is_word_or_space);
      [apply quote_not_word_or_space|].
    destruct Hv as (_ & Hv & _). exact (assigned_text_in_class Hv).
  - intros Hn. now rewrite (search_no_quoted Hn).
Qed.

(** C6. For every declaration file the extractor returns, and returns one
    record, whose name is that of the parent directory; when reading the
    file raises, the exception is caught, every other field of the record
    is at its default and the error is printed with the path. *)
Theorem extraction_returns_one_record (f : FS) (init_file : Path) :
  exists r t,
    extract_service_info f init_file = (Returned r, t) /\
    info_name r = name (parent init_file) /\
    forall e,
      fs_read f init_file = inr e ->
      r = (name (parent init_file),
           lit "N/A", false, false, lit "N/A", lit "N/A") /\
      t = [Print (lit "Error reading " ++ path_str init_file ++ lit ": " ++ e)].
Proof.
  destruct (fs_read f init_file) as [content|e] eqn:E.
  - rewrite (extract_read _ _ E). do 2 eexists.
    split; [reflexivity|]. split; [reflexivity|]. discriminate.
  - rewrite (extract_failed _ _ E). do 2 eexists.
    split; [reflexivity|]. split; [reflexivity|].
    intros e' He. inversion He. subst. auto.
Qed.

End Extractor.

Section ExtractorExamples.
Import Py Re Env Script Spec.

(** The first literal decides: [_drm=False;_drm=True] gives false, and a
    text without [_deprecate] leaves that flag false. *)
Lemma boolean_fields_witness :
  exists r,
    extract_service_info (U := ascii_only) (reads_as (inl sample_flags))
      sample_init = (Returned r, []) /\
    info_drm r = false /\ info_deprecate r = false.
Proof.
  destruct (@boolean_fields_follow_first_literal ascii_only
              (reads_as (inl sample_flags)) sample_init sample_flags eq_refl)
    as (r & E & Hdrm & _ & _ & Hdep).
  exists r. split; [exact E|]. split.
  - apply (Hdrm 0). split; [simpl; lia|]. split.
    + exists [], [], (lit ";_drm=True"). repeat split.
    + intros j a' Hj. lia.
  - apply Hdep. intros j a Hj (ws1 & ws2 & rest & _ & _ & E').
    do 21 (destruct j as [|j]; [simpl in E'; discriminate E'|]).
    simpl in Hj. lia.
Defined.

(** The blanks inside the quotes are kept, and a text without
    [_stream_type] leaves that field at "N/A". *)
Lemma quoted_fields_witness :
  exists r,
    extract_service_info (U := ascii_only) (reads_as (inl sample_region))
      sample_init = (Returned r, []) /\
    info_region r = lit " IT " /\ info_stream_type r = lit "N/A".
Proof.
  destruct (@quoted_fields_are_captured_text ascii_only
              (reads_as (inl sample_region)) sample_init sample_region eq_refl)
    as (r & E & _ & Hst & _ & _ & Hreg & _).
  exists r. split; [exact E|]. split.
  - apply (Hreg 0). split; [simpl; lia|]. split.
    + exists [32%N], [32%N], 39%N, 39%N, []. repeat split. discriminate.
    + intros j a' Hj. lia.
  - apply Hst.
    intros j a Hj (ws1 & ws2 & q1 & q2 & rest & _ & _ & _ & _ & _ & _ & E').
    do 17 (destruct j as [|j]; [simpl in E'; discriminate E'|]).
    simpl in Hj. lia.
Defined.

End ExtractorExamples.

(** C10. The opening and the closing quote are matched independently: in
    a text whose three string attributes are each opened by one kind of
    quote and closed by the other, all three values are extracted, none is
    left at "N/A". *)
Theorem mismatched_quotes_are_accepted {U : Py.UnicodeData} :
  exists q1 q2 content,
    Script.is_quote q1 = true /\ Script.is_quote q2 = true /\ q1 <> q2 /\
    content =
      Py.lit "_stream_type = " ++ q1 :: Py.lit "HLS" ++ q2 :: 10%N ::
      Py.lit "_maxResolution = " ++ q2 :: Py.lit "1080p" ++ q1 :: 10%N ::
      Py.lit "_region = " ++ q1 :: Py.lit "IT" ++ [q2] /\
    Script.extract_service_info (Spec.reads_as (inl content)) Spec.sample_init
    = (Env.Returned
         (Py.lit "amazon_prime", Py.lit "HLS", false, false,
          Py.lit "1080p", Py.lit "IT"),
       []).
Proof.
  exists 34%N, 39%N. eexists.
  split; [reflexivity|]. split; [reflexivity|]. split; [discriminate|].
  split; [reflexivity|]. reflexivity.
Qed.

(* ================================================================== *)
(** ** The renderer *)

Section Renderer.
Import Py Re Env Script Spec RenderFacts.
Context {U : UnicodeData}.

Lemma StronglySorted_weaken (A : Type) (R R' : A -> A -> Prop) (l : list A) :
  (forall a b, R a b -> R' a b) -> StronglySorted R l -> StronglySorted R' l.
Proof.
  intros HR. induction 1 as [|x l Hs IH Hx]; constructor; [exact IH|].
  eapply Forall_impl; [|exact Hx]. intros b. apply HR.
Qed.

Lemma nth_error_replace (old new : char) (s : str) :
  forall i c,
    nth_error s i = Some c ->
    nth_error (replace old new s) i = Some (if (c =? old)%N then new else c).
Proof.
  induction s as [|x s IH]; intros [|i] c H; simpl in *; try discriminate.
  - now inversion H.
  - now apply IH.
Qed.

(** C1. Each of the five columns is as wide as the longest of its header
    and its values; the header row and every data row are the cells, each
    followed by the spaces that bring it to that width, between bars. *)
Theorem columns_fit_their_longest_cell (services : list Service)
  (now : datetime) :
  let data := make_table_data services in
  let m := col_widths data in
  (forall k, k < 5 ->
     width k m
     = list_max (len (cell k headers) :: map (fun r => len (cell k r)) data)) /\
  table_lines services now
  = [lit "# Services Overview"; []; format_row m headers; format_separator m]
    ++ map (format_row m) data ++ trailer now /\
  (forall r, r = headers \/ In r data ->
     format_row m r
     = bar_row (map (fun k => padded (cell k r) (width k m)) (seq 0 5)) /\
     forall k, k < 5 ->
       ljust (cell k r) (width k m) = padded (cell k r) (width k m) /\
       len (cell k r) <= width k m /\
       len (padded (cell k r) (width k m)) = width k m).
Proof.
  intros data m. split; [|split].
  - intros k Hk. now apply width_col_widths.
  - apply table_lines_parts.
  - intros r Hr. split; [apply format_row_bars|].
    intros k Hk. split; [apply ljust_padded|].
    assert (Hfit : len (cell k r) <= width k m) by now apply cell_fits.
    split; [exact Hfit | now apply len_padded].
Qed.

(** C2. The data rows are those of the records arranged in ascending order
    of their lower-cased names; that order is not the order of the display
    labels, as the names [a_] and [a1] show. *)
Theorem rows_follow_lowercased_names :
  (forall (services : list Service) (now : datetime),
     exists ordered,
       Permutation services ordered /\
       StronglySorted key_le ordered /\
       let m := col_widths (map display ordered) in
       table_lines services now
       = preamble m ++ map (fun x => format_row m (display x)) ordered
         ++ trailer now) /\
  (exists services : list Service,
     ~ StronglySorted label_le (make_table_data services)).
Proof.
  split.
  - intros services now. exists (sorted str_ltb sort_key services).
    split; [apply sorted_perm|]. split.
    + eapply StronglySorted_weaken;
        [|apply (sorted_sorted str_ltb sort_key);
          [exact str_ltb_asym | exact str_le_trans]].
      intros a b H. unfold key_le. now rewrite <- !sort_key_lower.
    + cbv zeta. rewrite table_lines_parts. unfold make_table_data.
      now rewrite map_map.
  - exists [(lit "a_", lit "HLS", false, lit "N/A", lit "N/A");
            (lit "a1", lit "HLS", false, lit "N/A", lit "N/A")].
    intros H. inversion H as [|? ? _ HF]; subst.
    inversion HF as [|? ? Hle _]; subst.
    vm_compute in Hle. discriminate Hle.
Qed.

(** C8. The display label is the title-cased name with spaces for
    underscores: it is made of one piece per character of the name, the
    piece of an underscore is a space, and the piece of a character that
    begins a word is its title-case form (for an ASCII lower-case letter,
    the upper-case letter).  The DRM cell is the check mark when the flag is
    true and the cross mark when it is false; the other cells are the
    record's fields. *)
Theorem display_label_and_drm_glyph
  (service_name stream_type : str) (drm : bool) (max_resolution region : str) :
  exists pieces,
    display (service_name, stream_type, drm, max_resolution, region)
    = (List.concat pieces, stream_type,
       if drm then check_mark else cross_mark, max_resolution, region) /\
    List.concat pieces = title (replace 95%N 32%N service_name) /\
    List.length pieces = len service_name /\
    (forall i, nth_error service_name i = Some 95%N ->
               nth_error pieces i = Some [32%N]) /\
    (forall i c, nth_error service_name i = Some c -> c <> 95%N ->
                 word_start service_name i ->
                 nth_error pieces i = Some (to_title_full c)) /\
    (forall c, ascii_lower c = true -> to_title_full c = [(c - 32)%N]) /\
    check_mark <> cross_mark.
Proof.
  exists (title_pieces [] false (replace 95%N 32%N service_name)).
  assert (Hc : List.concat (title_pieces [] false (replace 95%N 32%N service_name))
               = title (replace 95%N 32%N service_name)).
  { unfold title. now rewrite title_from_pieces. }
  split; [unfold display; now rewrite Hc|]. split; [exact Hc|].
  split; [rewrite length_title_pieces; unfold replace, len; apply length_map|].
  split; [|split; [|split]].
  - intros i Hi. apply title_piece_space.
    now rewrite (nth_error_replace 95%N 32%N _ _ Hi).
  - intros i c Hi Hc' Hs. apply title_piece_start.
    + rewrite (nth_error_replace 95%N 32%N _ _ Hi).
      destruct (N.eqb_spec c 95); [contradiction | reflexivity].
    + destruct Hs as [->|(u & Hu & Hsep)]; [left; auto|].
      destruct i as [|i]; [left; auto|]. right.
      exists 32%N. split; [lia|]. split; [|reflexivity].
      simpl in Hu. rewrite Nat.sub_0_r in Hu. simpl.
      rewrite Nat.sub_0_r. rewrite (nth_error_replace 95%N 32%N _ _ Hu).
      destruct Hsep as [->| ->]; reflexivity.
  - intros c Hl. unfold to_title_full. rewrite Hl.
    unfold ascii_lower, between in Hl. apply andb_true_iff in Hl.
    destruct Hl as [_ Hl]. apply N.leb_le in Hl.
    unfold is_ascii. destruct (N.ltb_spec c 128); [reflexivity | lia].
  - discriminate.
Qed.

End Renderer.

Section RendererExamples.
Import Py Script Spec.

(** The name [amazon_prime] is shown as "Amazon Prime"; letters after the
    first of a word are lowered and a letter after a digit starts a word. *)
Example display_amazon_prime (U : UnicodeData) :
  display (lit "amazon_prime", lit "HLS", true, lit "1080p", lit "IT")
  = (lit "Amazon Prime", lit "HLS", check_mark, lit "1080p", lit "IT") /\
  title (replace 95%N 32%N (lit "rai3play_BBC")) = lit "Rai3Play Bbc".
Proof. split; reflexivity. Qed.

End RendererExamples.

(* ================================================================== *)
(** ** The run *)

Section Run.
Import Py Re Env Script Spec PatternFacts RenderFacts MainFacts OrderFacts.
Context {U : UnicodeData}.

(** C3. In a run that finds declaration files, one record is extracted per
    file; the data rows of the written table are, up to their order, the
    rows of the records whose deprecated flag is false, one row each, so a
    record whose flag is true has no row; and the count printed after
    "Deprecated services:" is the number of records whose flag is true. *)
Theorem deprecated_records_are_dropped_and_counted
  (w : World) (init_files : list Path) (t0 : list event) :
  find_service_files (fs w) (base_path_of w) = (Returned init_files, t0) ->
  init_files <> [] ->
  let records := map (record_of (fs w)) init_files in
  let m := col_widths (make_table_data (kept records)) in
  exists before rows,
    main w
    = (Returned tt,
       before
       ++ [Print (lit "Deprecated services: "
                  ++ str_of_nat
                       (List.length (filter info_deprecate records)));
           Now (clock w);
           Mkdir (parent (output_file_of w));
           WriteText (output_file_of w)
             (join [10%N] (preamble m ++ rows ++ trailer (clock w)))]) /\
    Permutation rows
      (map (fun r => format_row m (display (kept_shape r)))
           (filter (fun r => negb (info_deprecate r)) records)) /\
    List.length records = List.length init_files.
Proof.
  intros Hfind Hne records m.
  exists (Print (lit "Base path: " ++ path_str (base_path_of w)) :: t0
          ++ Print (lit "Found " ++ str_of_nat (List.length init_files)
                    ++ lit " service files")
          :: List.concat (map (log_of (fs w)) init_files)),
         (map (format_row m) (make_table_data (kept records))).
  split; [|split].
  - rewrite (main_found w Hfind Hne). fold records.
    rewrite table_lines_parts. reflexivity.
  - replace (map (fun r => format_row m (display (kept_shape r)))
                 (filter (fun r => negb (info_deprecate r)) records))
      with (map (format_row m) (map display (kept records)))
      by (unfold kept; rewrite !map_map; reflexivity).
    unfold make_table_data.
    apply Permutation_map, Permutation_map, Permutation_sym, sorted_perm.
  - unfold records. apply length_map.
Qed.

(** C7. When discovery returns no file, the run prints the base path, what
    discovery printed, "Found 0 service files" and "No service files
    found!", and returns: the clock is not read, no directory is made and
    no file is written. *)
Theorem nothing_found_nothing_written (w : World) (t0 : list event) :
  find_service_files (fs w) (base_path_of w) = (Returned [], t0) ->
  main w
  = (Returned tt,
     Print (lit "Base path: " ++ path_str (base_path_of w)) :: t0
     ++ [Print (lit "Found 0 service files");
         Print (lit "No service files found!")]) /\
  forallb is_print (snd (main w)) = true.
Proof.
  intros H. split.
  - exact (main_nothing_found w H).
  - exact (main_nothing_found_prints w H).
Qed.

(** C9. The record extracted from a file depends only on the name of its
    directory and on its text.  Take two runs that read the clock as [t1]
    and [t2], the second on a file system that answers like that of the
    first everywhere but at the output file and the directories above it
    (and may list directories in another order).  Either both find
    nothing, or discovery raises in both, and they act alike without
    writing; or they act alike up to the clock reading and write to the
    same path two documents that share everything before the "Last
    updated" line.  The second file system may be the one the first run
    leaves behind, so this holds of two successive runs. *)
Theorem runs_differ_only_in_the_timestamp :
  (forall (f1 f2 : FS) (p1 p2 : Path) (content : str),
     name (parent p1) = name (parent p2) ->
     fs_read f1 p1 = inl content -> fs_read f2 p2 = inl content ->
     extract_service_info f1 p1 = extract_service_info f2 p2) /\
  (forall (script : Path) (f1 f2 : FS) (t1 t2 : datetime),
     let w1 := {| script_file := script; fs := f1; clock := t1 |} in
     let w2 := {| script_file := script; fs := f2; clock := t2 |} in
     unchanged_inputs (output_file_of w1) f1 f2 ->
     (main w1 = main w2 /\ forallb is_print (snd (main w1)) = true) \/
     exists before out body,
       main w1
       = (Returned tt,
          before ++ [Now t1; Mkdir (parent out);
                     WriteText out (body ++ stamp_line t1 ++ [10%N])]) /\
       main w2
       = (Returned tt,
          before ++ [Now t2; Mkdir (parent out);
                     WriteText out (body ++ stamp_line t2 ++ [10%N])])).
Proof.
  split.
  - intros f1 f2 p1 p2 content Hn H1 H2.
    rewrite (extract_read _ _ H1), (extract_read _ _ H2), Hn. reflexivity.
  - intros script f1 f2 t1 t2 w1 w2 Hsame.
    assert (Hm : main w1
                 = main {| script_file := script; fs := f2; clock := t1 |}).
    { apply main_agree. intros p Hp. apply Hsame.
      exact (below_services_untouched _ _ Hp). }
    rewrite Hm.
    set (w1' := {| script_file := script; fs := f2; clock := t1 |}).
    destruct (find_service_files f2 (base_path_of w1'))
      as [[files|e] t0] eqn:E.
    + destruct files as [|p ps].
      * left. split; [|exact (main_nothing_found_prints w1' E)].
        now rewrite (main_nothing_found w1' E), (main_nothing_found w2 E).
      * right.
        assert (Hne : p :: ps <> []) by discriminate.
        pose proof (main_found w1' E Hne) as E1.
        pose proof (main_found w2 E Hne) as E2.
        cbv zeta in E1, E2. rewrite document_parts in E1, E2.
        set (records := map (record_of f2) (p :: ps)) in *.
        exists ((Print (lit "Base path: " ++ path_str (base_path_of w2)) :: t0
                 ++ Print (lit "Found " ++ str_of_nat (List.length (p :: ps))
                           ++ lit " service files")
                 :: List.concat (map (log_of f2) (p :: ps)))
                ++ [Print (lit "Deprecated services: "
                           ++ str_of_nat (List.length (dropped records)))]),
               (output_file_of w2),
               (join [10%N]
                  (preamble (col_widths (make_table_data (kept records)))
                   ++ map (format_row
                             (col_widths (make_table_data (kept records))))
                          (make_table_data (kept records))
                   ++ [[]; lit "---"; []])
                ++ [10%N]).
        split.
        -- rewrite E1, <- !app_assoc. reflexivity.
        -- rewrite E2, <- !app_assoc. reflexivity.
    + left. rewrite (main_raised w1' E), (main_raised w2 E).
      split; [reflexivity|]. cbn [snd forallb is_print andb].
      pose proof (find_prints f2 (base_path_of w1')) as Ht.
      rewrite E in Ht. exact Ht.
Qed.

End Run.

Section RunExamples.
Import Py Re Env Script Spec.

(** With [amazon_prime] and the deprecated [old_service], the count
    printed is 1 and the table has one data row. *)
Lemma deprecated_records_witness :
  exists before rows doc,
    main (U := ascii_only) (sample_world two_services)
    = (Returned tt,
       before
       ++ [Print (lit "Deprecated services: 1");
           Now sample_clock;
           Mkdir (parent (output_file_of (sample_world two_services)));
           WriteText (output_file_of (sample_world two_services)) doc]) /\
    List.length rows = 1 /\
    doc = join [10%N]
            (preamble (col_widths [(lit "Amazon Prime", lit "HLS", check_mark,
                                    lit "1080p", lit "IT")])
             ++ rows ++ trailer sample_clock).
Proof.
  destruct (@deprecated_records_are_dropped_and_counted ascii_only
              (sample_world two_services)
              [base_path_of (sample_world two_services)
                 // "StreamingCommunity" // "Api" // "Service"
                 // "amazon_prime" // "__init__.py";
               base_path_of (sample_world two_services)
                 // "StreamingCommunity" // "Api" // "Service"
                 // "old_service" // "__init__.py"]
              [] eq_refl ltac:(discriminate))
    as (before & rows & E & P & _).
  exists before, rows. eexists. split; [exact E|]. split.
  - apply Permutation_length in P. exact P.
  - reflexivity.
Defined.

(** Without the services directory nothing is found and the run only
    prints. *)
Lemma nothing_found_witness :
  main (U := ascii_only) (sample_world no_services)
  = (Returned tt,
     [Print (lit "Base path: /work");
      Print (lit "Services path not found: /work/StreamingCommunity/Api/Service");
      Print (lit "Found 0 service files");
      Print (lit "No service files found!")]) /\
  forallb is_print (snd (main (U := ascii_only) (sample_world no_services)))
  = true.
Proof.
  exact (@nothing_found_nothing_written ascii_only (sample_world no_services)
           [Print (lit "Services path not found: /work/StreamingCommunity/Api/Service")]
           eq_refl).
Defined.

(** Two successive runs in the sample checkout, at two times of the day:
    the second starts from the file system the first leaves behind, in
    which [/work/.github/doc/site.md] now holds the first document, and
    the documents they write differ in the stamp line only. *)
Lemma runs_witness :
  exists before out body,
    main (U := ascii_only)
      {| script_file := sample_script; fs := sample_checkout;
         clock := sample_clock |}
    = (Returned tt,
       before ++ [Now sample_clock; Mkdir (parent out);
                  WriteText out (body ++ stamp_line sample_clock ++ [10%N])]) /\
    main (U := ascii_only)
      {| script_file := sample_script;
         fs := fs_after sample_checkout
                 (snd (main (U := ascii_only)
                         {| script_file := sample_script;
                            fs := sample_checkout; clock := sample_clock |}));
         clock := sample_clock_later |}
    = (Returned tt,
       before ++ [Now sample_clock_later; Mkdir (parent out);
                  WriteText out
                    (body ++ stamp_line sample_clock_later ++ [10%N])]).
Proof.
  destruct (proj2 (@runs_differ_only_in_the_timestamp ascii_only)
              sample_script sample_checkout
              (fs_after sample_checkout
                 (snd (main (U := ascii_only)
                         {| script_file := sample_script;
                            fs := sample_checkout; clock := sample_clock |})))
              sample_clock sample_clock_later
              (OrderFacts.after_run_unchanged
                 {| script_file := sample_script; fs := sample_checkout;
                    clock := sample_clock |}))
    as [[_ P]|H].
  - vm_compute in P. discriminate P.
  - exact H.
Defined.

(** The first run makes the output file, which the second then finds. *)
Example output_file_appears :
  fs_exists sample_checkout
    (output_file_of (sample_world sample_checkout)) = false /\
  fs_exists
    (fs_after sample_checkout
       (snd (main (U := ascii_only) (sample_world sample_checkout))))
    (output_file_of (sample_world sample_checkout)) = true /\
  fs_read
    (fs_after sample_checkout
       (snd (main (U := ascii_only) (sample_world sample_checkout))))
    (output_file_of (sample_world sample_checkout))
  = inl (join [10%N]
           (table_lines (U := ascii_only)
              [(lit "amazon_prime", lit "HLS", true, lit "1080p", lit "IT")]
              sample_clock)).
Proof. repeat split; vm_compute; reflexivity. Qed.

End RunExamples.

(* ================================================================== *)
(** ** Discovery *)

Section Discovery.
Import Py Re Env Script Spec RenderFacts MainFacts OrderFacts.
Context {U : UnicodeData}.

Lemma parent_div (p : Path) (c : string) : parent (p // c) = p.
Proof.
  destruct p as [a ps]. unfold parent, div. simpl.
  now rewrite removelast_last.
Qed.

Lemma name_div (p : Path) (c : string) : name (p // c) = lit c.
Proof. unfold name, div. simpl. apply last_last. Qed.









(** X3. Two file systems that answer alike, but may list the entries of a
    directory in different orders, give the same discovery: the same files
    in the same order and the same printed lines. *)
Theorem discovery_ignores_listing_order (f1 f2 : FS) (base_path : Path) :
  same_files f1 f2 ->
  find_service_files f1 base_path = find_service_files f2 base_path.
Proof.
  intros H. apply find_agree. intros p _. now apply same_files_agree.
Qed.

(** X4. The record extracted from the declaration file of a directory
    entry carries the name of that entry, whether or not the file can be
    read. *)
Theorem record_is_named_after_its_directory (f : FS) (d : Path) :
  exists r t,
    extract_service_info f (d // "__init__.py") = (Returned r, t) /\
    info_name r = name d.
Proof.
  destruct (fs_read f (d // "__init__.py")) as [content|e] eqn:E.
  - rewrite (PatternFacts.extract_read _ _ E). do 2 eexists.
    split; [reflexivity|]. cbn [info_name]. now rewrite parent_div.
  - rewrite (PatternFacts.extract_failed _ _ E). do 2 eexists.
    split; [reflexivity|]. cbn [info_name default_info].
    now rewrite parent_div.
Qed.

End Discovery.

(* ================================================================== *)
(** ** The shape of the table *)

Section TableShape.
Import Py Re Env Script Spec RenderFacts.
Context {U : UnicodeData}.

Lemma len_format_row (m : Widths) (r : Row) :
  (forall k, k < 5 -> len (cell k r) <= width k m) ->
  len (format_row m r) = 16 + total_width m.
Proof.
  intros H.
  pose proof (H 0 ltac:(lia)) as H0. pose proof (H 1 ltac:(lia)) as H1.
  pose proof (H 2 ltac:(lia)) as H2. pose proof (H 3 ltac:(lia)) as H3.
  pose proof (H 4 ltac:(lia)) as H4. clear H.
  destruct m as [[[[w1 w2] w3] w4] w5], r as [[[[c1 c2] c3] c4] c5].
  unfold format_row, total_width. rewrite !ljust_padded.
  cbn [cell width cells widths nth list_sum fold_right] in *.
  unfold len in *. rewrite !length_app.
  fold (len (padded c1 w1)) (len (padded c2 w2)) (len (padded c3 w3))
       (len (padded c4 w4)) (len (padded c5 w5)).
  rewrite !len_padded by assumption. simpl. lia.
Qed.

Lemma len_format_separator (m : Widths) :
  len (format_separator m) = 16 + total_width m.
Proof.
  destruct m as [[[[w1 w2] w3] w4] w5].
  unfold format_separator, total_width, times, len.
  rewrite !length_app, !repeat_length. simpl. lia.
Qed.

Lemma separator_chars (m : Widths) :
  forallb (fun c => (c =? 45)%N || (c =? 124)%N) (format_separator m) = true.
Proof.
  destruct m as [[[[w1 w2] w3] w4] w5]. unfold format_separator, times.
  rewrite !forallb_app.
  assert (Hr : forall n, forallb (fun c => (c =? 45)%N || (c =? 124)%N)
                           (repeat 45%N n) = true)
    by (induction n; simpl; auto).
  now rewrite !Hr.
Qed.

(** *** The lines of the document *)

Lemma one_line_app (a b : str) :
  one_line a -> one_line b -> one_line (a ++ b).
Proof.
  unfold one_line. intros Ha Hb H. apply in_app_or in H. tauto.
Qed.

Lemma one_line_check (s : str) :
  forallb (fun c => negb (c =? 10)%N) s = true -> one_line s.
Proof.
  unfold one_line. rewrite forallb_forall. intros H Hin.
  specialize (H _ Hin). discriminate H.
Qed.

Lemma one_line_repeat (c : char) (n : nat) :
  c <> 10%N -> one_line (repeat c n).
Proof. intros Hc H. apply repeat_spec in H. congruence. Qed.

Lemma one_line_padded (c : str) (w : nat) :
  one_line c -> one_line (padded c w).
Proof.
  intros H. apply one_line_app; [exact H|]. now apply one_line_repeat.
Qed.

Lemma one_line_digits (u : Decimal.uint) : one_line (digits u).
Proof.
  unfold one_line. induction u; simpl; intros H;
    try (destruct H as [H|H]; [discriminate H | now apply IHu]).
  exact H.
Qed.

Lemma one_line_zfill (w n : nat) : one_line (zfill w (str_of_nat n)).
Proof.
  unfold zfill. apply one_line_app; [now apply one_line_repeat|].
  apply one_line_digits.
Qed.

Lemma one_line_stamp (now : datetime) : one_line (stamp_line now).
Proof.
  unfold stamp_line, strftime.
  repeat (apply one_line_app;
          try apply one_line_zfill; try (apply one_line_check; reflexivity)).
Qed.

Lemma one_line_separator (m : Widths) : one_line (format_separator m).
Proof.
  destruct m as [[[[w1 w2] w3] w4] w5]. unfold format_separator, times.
  repeat (apply one_line_app;
          try (apply one_line_repeat; discriminate);
          try (apply one_line_check; reflexivity)).
Qed.

Lemma one_line_row (m : Widths) (r : Row) :
  Forall one_line (cells r) -> one_line (format_row m r).
Proof.
  destruct m as [[[[w1 w2] w3] w4] w5], r as [[[[c1 c2] c3] c4] c5].
  cbn [cells]. intros H.
  inversion H as [|? ? H1 H']; subst. inversion H' as [|? ? H2 H'']; subst.
  inversion H'' as [|? ? H3 H3']; subst. inversion H3' as [|? ? H4 H4']; subst.
  inversion H4' as [|? ? H5 _]; subst.
  unfold format_row. rewrite !ljust_padded.
  repeat (apply one_line_app;
          try (apply one_line_padded; assumption);
          try (apply one_line_check; reflexivity)).
Qed.

Lemma split_one_line (l : str) : one_line l -> split_lines l = [l].
Proof.
  unfold one_line. induction l as [|c l IH]; intros H; [reflexivity|].
  simpl. destruct (N.eqb_spec c 10) as [->|Hc]; [exfalso; apply H; now left|].
  rewrite IH; [reflexivity|]. intros Hin. apply H. now right.
Qed.

Lemma split_app (l s : str) :
  one_line l -> split_lines (l ++ 10%N :: s) = l :: split_lines s.
Proof.
  unfold one_line. induction l as [|c l IH]; intros H; [reflexivity|].
  simpl. destruct (N.eqb_spec c 10) as [->|Hc]; [exfalso; apply H; now left|].
  rewrite IH; [reflexivity|]. intros Hin. apply H. now right.
Qed.

(** Joining lines that hold no line feed and splitting again gives the
    lines back. *)
Lemma split_join (lines : list str) :
  lines <> [] -> Forall one_line lines ->
  split_lines (join [10%N] lines) = lines.
Proof.
  induction lines as [|l rest IH]; intros Hne H; [congruence|].
  inversion H as [|? ? Hl Hrest]; subst.
  destruct rest as [|l2 rest]; [now apply split_one_line|].
  change (join [10%N] (l :: l2 :: rest))
    with (l ++ 10%N :: join [10%N] (l2 :: rest)).
  rewrite split_app by exact Hl. f_equal. apply IH; [discriminate | exact Hrest].
Qed.

(** X5. When no cell of the table holds a line feed, the document splits
    at its line feeds into the lines the renderer built: the heading, a
    blank line, the header row, the separator, one data row per record and
    the five lines of the trailer, 9 lines more than there are records.
    The header row, the separator and the data rows all have the same
    number of characters, 16 more than the five widths together, and the
    separator is made of dashes and bars only. *)
Theorem table_is_rectangular (services : list Service) (now : datetime) :
  let data := make_table_data services in
  let m := col_widths data in
  (forall r, In r data -> Forall one_line (cells r)) ->
  split_lines (join [10%N] (table_lines services now))
  = [lit "# Services Overview"; []; format_row m headers; format_separator m]
    ++ map (format_row m) data ++ trailer now /\
  List.length (split_lines (join [10%N] (table_lines services now)))
  = 9 + List.length services /\
  len (format_separator m) = 16 + total_width m /\
  forallb (fun c => (c =? 45)%N || (c =? 124)%N) (format_separator m) = true /\
  (forall r, r = headers \/ In r data ->
             len (format_row m r) = 16 + total_width m).
Proof.
  intros data m Hcells.
  assert (Hsplit : split_lines (join [10%N] (table_lines services now))
                   = table_lines services now).
  { apply split_join.
    - rewrite table_lines_parts. discriminate.
    - rewrite table_lines_parts. fold data m. unfold preamble, trailer.
      repeat constructor;
        try (apply one_line_check; reflexivity);
        try apply one_line_separator.
      + apply one_line_row. repeat constructor; apply one_line_check;
          reflexivity.
      + apply Forall_app. split.
        * rewrite Forall_forall. intros l Hl. apply in_map_iff in Hl.
          destruct Hl as (r & <- & Hr). now apply one_line_row, Hcells.
        * repeat constructor;
            try (apply one_line_check; reflexivity);
            try apply one_line_stamp. }
  split; [rewrite Hsplit; apply table_lines_parts|].
  split.
  - rewrite Hsplit, table_lines_parts. fold data m.
    rewrite !length_app, length_map. unfold data, make_table_data.
    rewrite length_map.
    rewrite <- (Permutation_length (sorted_perm str_ltb sort_key services)).
    simpl. lia.
  - split; [apply len_format_separator|].
    split; [apply separator_chars|].
    intros r Hr. apply len_format_row. intros k Hk. now apply cell_fits.
Qed.

Lemma drm_cell_is_one_glyph (x : Service) : len (cell 2 (display x)) = 1.
Proof. destruct x as [[[[n st] [|]] res] reg]; reflexivity. Qed.

(** X6. The DRM column is 3 characters wide in every table: the glyph is
    one character, shorter than the header.  No column is narrower than
    its header. *)
Theorem drm_column_is_three_wide (services : list Service) :
  let m := col_widths (make_table_data services) in
  width 2 m = 3 /\
  forall k, k < 5 -> len (cell k headers) <= width k m.
Proof.
  intros m. split.
  - unfold m. rewrite width_col_widths by lia.
    apply Nat.le_antisymm.
    + apply list_max_le. constructor; [simpl; lia|].
      rewrite Forall_forall. intros n Hn. apply in_map_iff in Hn.
      destruct Hn as (r & <- & Hr). unfold make_table_data in Hr.
      apply in_map_iff in Hr. destruct Hr as (x & <- & _).
      rewrite drm_cell_is_one_glyph. lia.
    + unfold list_max. cbn [fold_right]. apply Nat.le_max_l.
  - intros k Hk. apply cell_fits; auto.
Qed.

(** *** Ties *)

Lemma filter_insert (A K : Type) (ltb : K -> K -> bool) (key : A -> K)
  (P : A -> bool) (x : A) (l : list A) :
  (forall y, P x = true -> ltb (key y) (key x) = true -> P y = false) ->
  filter P (insert ltb key x l) = filter P (x :: l).
Proof.
  intros H. induction l as [|y l IH]; [reflexivity|].
  cbn [insert]. destruct (ltb (key y) (key x)) eqn:E; [|reflexivity].
  cbn [filter] in *. rewrite IH. destruct (P x) eqn:Px; [|reflexivity].
  now rewrite (H y eq_refl E).
Qed.

Lemma filter_sorted_key (k : str) (services : list Service) :
  filter (has_key k) (sorted str_ltb sort_key services)
  = filter (has_key k) services.
Proof.
  induction services as [|x l IH]; [reflexivity|].
  cbn [sorted fold_right]. fold (sorted str_ltb sort_key l).
  rewrite filter_insert.
  - cbn [filter]. now rewrite IH.
  - intros y Hx Hlt. unfold has_key in *. apply str_eqb_eq in Hx.
    destruct (str_eqb (sort_key y) k) eqn:Hy; [|reflexivity].
    apply str_eqb_eq in Hy. rewrite Hx, Hy, str_ltb_irrefl in Hlt.
    discriminate.
Qed.

(** X7. Sorting is stable: the rows are those of some arrangement of the
    records in which, for every key, the records with that lower-cased
    name stand in the order they were given. *)
Theorem ties_keep_their_order (services : list Service) :
  exists ordered,
    make_table_data services = map display ordered /\
    Permutation services ordered /\
    forall k, filter (has_key k) ordered = filter (has_key k) services.
Proof.
  exists (sorted str_ltb sort_key services).
  split; [reflexivity|]. split; [apply sorted_perm|].
  intros k. apply filter_sorted_key.
Qed.

(** *** ASCII names *)

Lemma ascii_not_sigma (c : char) : is_ascii c = true -> (c =? 931)%N = false.
Proof.
  unfold is_ascii. intros H. apply N.ltb_lt in H. apply N.eqb_neq. lia.
Qed.

Lemma lower_at_ascii (before : str) (c : char) (after : str) :
  is_ascii c = true -> lower_at before c after = [fold_case c].
Proof.
  intros H. unfold lower_at, to_lower_full, fold_case.
  rewrite (ascii_not_sigma c H), H. now destruct (ascii_upper c).
Qed.

Lemma lower_from_ascii (s : str) :
  forall before, forallb is_ascii s = true ->
                 lower_from before s = map fold_case s.
Proof.
  induction s as [|c t IH]; intros before H; [reflexivity|].
  simpl in H. apply andb_true_iff in H. destruct H as [Hc Ht].
  cbn [lower_from map]. rewrite lower_at_ascii by exact Hc.
  rewrite IH by exact Ht.
  reflexivity.
Qed.

(** X8. On names of ASCII characters the sort key is the name with its
    capital letters lowered, so two names that differ only in the case of
    their letters have the same key. *)
Theorem ascii_names_compare_without_case (x y : Service) :
  forallb is_ascii (service_name_of x) = true ->
  forallb is_ascii (service_name_of y) = true ->
  sort_key x = map fold_case (service_name_of x) /\
  (map fold_case (service_name_of x) = map fold_case (service_name_of y) ->
   sort_key x = sort_key y /\
   forall z, str_ltb (sort_key x) (sort_key z) = str_ltb (sort_key y) (sort_key z)).
Proof.
  intros Hx Hy.
  assert (Kx : sort_key x = map fold_case (service_name_of x))
    by (rewrite sort_key_lower; now apply lower_from_ascii).
  assert (Ky : sort_key y = map fold_case (service_name_of y))
    by (rewrite sort_key_lower; now apply lower_from_ascii).
  split; [exact Kx|]. intros E.
  assert (Kxy : sort_key x = sort_key y) by (now rewrite Kx, Ky).
  split; [exact Kxy|]. intros z. now rewrite Kxy.
Qed.

Lemma title_from_ascii_len (s : str) :
  forall before prev, forallb is_ascii s = true ->
                      len (title_from before prev s) = len s.
Proof.
  induction s as [|c t IH]; intros before prev H; [reflexivity|].
  simpl in H. apply andb_true_iff in H. destruct H as [Hc Ht].
  cbn [title_from]. unfold len in *. rewrite length_app, IH by exact Ht.
  destruct prev.
  - now rewrite lower_at_ascii by exact Hc.
  - unfold to_title_full. rewrite Hc. now destruct (ascii_lower c).
Qed.

Lemma replace_ascii (s : str) :
  forallb is_ascii s = true -> forallb is_ascii (replace 95%N 32%N s) = true.
Proof.
  unfold replace. rewrite !forallb_forall. intros H c Hc.
  apply in_map_iff in Hc. destruct Hc as (c' & <- & Hc').
  destruct (c' =? 95)%N; [reflexivity | now apply H].
Qed.

Lemma list_max_permutation (l1 l2 : list nat) :
  Permutation l1 l2 -> list_max l1 = list_max l2.
Proof.
  induction 1 as [| x l1 l2 _ IH | x y l | l1 l2 l3 _ IH1 _ IH2]; simpl;
    try lia.
Qed.

(** X9. A name of ASCII characters has a label of the same length, so the
    first column is as wide as the longest of "Site Name" and the names. *)
Theorem first_column_fits_the_names (services : list Service) :
  Forall (fun x => forallb is_ascii (service_name_of x) = true) services ->
  Forall (fun x => len (cell 0 (display x)) = len (service_name_of x)) services /\
  width 0 (col_widths (make_table_data services))
  = list_max (9 :: map (fun x => len (service_name_of x)) services).
Proof.
  intros H.
  assert (Hl : Forall (fun x => len (cell 0 (display x)) = len (service_name_of x))
                      services).
  { eapply Forall_impl; [|exact H]. intros [[[[n st] drm] res] reg] Hn.
    cbn [display cell cells nth service_name_of] in *. unfold title.
    rewrite title_from_ascii_len by now apply replace_ascii.
    unfold replace, len. apply length_map. }
  split; [exact Hl|].
  rewrite width_col_widths by lia. unfold make_table_data.
  rewrite map_map.
  change (list_max (len (cell 0 headers)
                    :: map (fun x => len (cell 0 (display x)))
                           (sorted str_ltb sort_key services)))
    with (Nat.max 9 (list_max (map (fun x => len (cell 0 (display x)))
                                   (sorted str_ltb sort_key services)))).
  rewrite <- (list_max_permutation
                (Permutation_map _ (sorted_perm str_ltb sort_key services))).
  rewrite (map_ext_in _ (fun x => len (service_name_of x))).
  - reflexivity.
  - intros x Hx. rewrite Forall_forall in Hl. now apply Hl.
Qed.

End TableShape.

(* ================================================================== *)
(** ** What a field tells about the text *)

Section FieldsAndText.
Import Py Re Env Script Spec ReFacts PatternFacts.
Context {U : UnicodeData}.

(** A successful search comes from the leftmost offset with a match. *)
Lemma search_some_inv (r : regex) :
  forall s g, search r s = Some g -> exists i, leftmost_match r s i g.
Proof.
  induction s as [|c t IH]; intros g H; simpl in H.
  - destruct (run r []) as [|m rest] eqn:E; [discriminate|].
    inversion H; subst. exists 0. split; [simpl; lia|].
    split; [intros j Hj; lia|]. exists (snd m). simpl. rewrite E.
    now destruct m.
  - destruct (run r (c :: t)) as [|m rest] eqn:E.
    + destruct (IH g H) as (i & Hi & Hlt & s' & Hm).
      exists (S i). split; [unfold len in *; simpl; lia|]. split.
      * intros [|j] Hj; [exact E | apply Hlt; lia].
      * exists s'. exact Hm.
    + inversion H; subst. exists 0. split; [lia|].
      split; [intros j Hj; lia|]. exists (snd m). simpl. rewrite E.
      now destruct m.
Qed.

Lemma search_none_inv (r : regex) :
  forall s, search r s = None ->
            forall j, j <= len s -> run r (skipn j s) = [].
Proof.
  induction s as [|c t IH]; intros H j Hj; simpl in H.
  - destruct (run r []) eqn:E; [|discriminate]. now rewrite skipn_nil.
  - destruct (run r (c :: t)) eqn:E; [|discriminate].
    destruct j as [|j]; [exact E|]. simpl. apply IH; [exact H|].
    unfold len in *. simpl in Hj. lia.
Qed.

Lemma hd_error_In (A : Type) (l : list A) (x : A) :
  hd_error l = Some x -> In x l.
Proof. destruct l; simpl; [discriminate|]. intros H. inversion H. now left. Qed.

(** *** Boolean fields *)

Lemma bool_field_true (name : string) (content : str) :
  match search (assign_re name bool_re) content with
  | Some m => str_eqb (group1 m) (lit "True")
  | None => false
  end = true <->
  exists i, first_at (assigns_bool name) content i true.
Proof.
  split.
  - destruct (search (assign_re name bool_re) content) as [g|] eqn:E;
      [|discriminate].
    intros Hv. destruct (@search_some_inv _ _ _ E) as (i & Hi & Hlt & s' & Hm).
    apply hd_error_In, run_denote, assigns_bool_denote in Hm.
    destruct Hm as (v & Hat & ->).
    assert (v = true) by (destruct v; [reflexivity | discriminate Hv]).
    subst v. exists i. split; [exact Hi|]. split; [exact Hat|].
    intros j a' Hj Ha'. destruct (denote_assigns_bool Ha') as [s0 Hd].
    apply run_denote in Hd. rewrite (Hlt j Hj) in Hd. destruct Hd.
  - intros [i Hi]. now rewrite (search_assigns_bool Hi).
Qed.

(** X10. The flags read back: [drm] is true exactly when the leftmost
    assignment of [_drm] in the text assigns [True], and [deprecate]
    exactly when the leftmost assignment of [_deprecate] does. *)
Theorem flags_read_back (f : FS) (init_file : Path) (content : str) :
  fs_read f init_file = inl content ->
  exists r,
    extract_service_info f init_file = (Returned r, []) /\
    (info_drm r = true <->
     exists i, first_at (assigns_bool "_drm") content i true) /\
    (info_deprecate r = true <->
     exists i, first_at (assigns_bool "_deprecate") content i true).
Proof.
  intros H. rewrite (extract_read _ _ H). eexists. split; [reflexivity|].
  unfold info_drm, info_deprecate, drm_re, deprecate_re.
  split; apply bool_field_true.
Qed.

(** *** String fields *)

Section Quoted.
Variable p : char -> bool.
Hypothesis p_no_slash : p 47%N = false.

Lemma quoted_field (name : string) (content : str) :
  let value :=
    match search (assign_re name (quoted_re (Rep 1 p))) content with
    | Some m => group1 m
    | None => lit "N/A"
    end in
  (value = lit "N/A" <-> nowhere (assigns_quoted name p) content) /\
  (value <> lit "N/A" ->
   exists i, first_at (assigns_quoted name p) content i value).
Proof.
  intros value. unfold value.
  destruct (search (assign_re name (quoted_re (Rep 1 p))) content)
    as [g|] eqn:E.
  - destruct (@search_some_inv _ _ _ E) as (i & Hi & Hlt & s' & Hm).
    apply hd_error_In, run_denote, assigns_quoted_denote in Hm.
    destruct Hm as (v & Hat & ->).
    change (group1 [(1, v)]) with v.
    assert (Hne : v <> lit "N/A").
    { intros ->. destruct Hat as (? & ? & ? & ? & ? & _ & _ & _ & _ & _ & Hv & _).
      simpl in Hv. rewrite p_no_slash in Hv.
      destruct (p 78%N); discriminate Hv. }
    split.
    + split; [intros Hv; contradiction|].
      intros Hn. exfalso. exact (Hn i v Hi Hat).
    + intros _. exists i. split; [exact Hi|]. split; [exact Hat|].
      intros j a' Hj Ha'. destruct (denote_assigns_quoted Ha') as [s0 Hd].
      apply run_denote in Hd. rewrite (Hlt j Hj) in Hd. destruct Hd.
  - split; [|congruence]. split; [|reflexivity].
    intros _ j a Hj Ha. destruct (denote_assigns_quoted Ha) as [s0 Hd].
    apply run_denote in Hd. rewrite (@search_none_inv _ _ E j Hj) in Hd.
    destruct Hd.
Qed.

End Quoted.

Lemma slash_not_word : is_word 47%N = false.
Proof. reflexivity. Qed.

Lemma slash_not_word_or_space : is_word_or_space 47%N = false.
Proof. reflexivity. Qed.

(** X11. The placeholder is never an extracted value: a string field is
    "N/A" exactly when its pattern matches nowhere in the text, and any
    other value is the text of the leftmost quoted assignment. *)
Theorem placeholder_means_no_match (f : FS) (init_file : Path) (content : str) :
  fs_read f init_file = inl content ->
  exists r,
    extract_service_info f init_file = (Returned r, []) /\
    (info_stream_type r = lit "N/A" <->
     nowhere (assigns_quoted "_stream_type" is_word) content) /\
    (info_stream_type r <> lit "N/A" ->
     exists i, first_at (assigns_quoted "_stream_type" is_word) content i
                 (info_stream_type r)) /\
    (info_max_resolution r = lit "N/A" <->
     nowhere (assigns_quoted "_maxResolution" is_word_or_space) content) /\
    (info_max_resolution r <> lit "N/A" ->
     exists i, first_at (assigns_quoted "_maxResolution" is_word_or_space)
                 content i (info_max_resolution r)) /\
    (info_region r = lit "N/A" <->
     nowhere (assigns_quoted "_region" is_word_or_space) content) /\
    (info_region r <> lit "N/A" ->
     exists i, first_at (assigns_quoted "_region" is_word_or_space)
                 content i (info_region r)).
Proof.
  intros H. rewrite (extract_read _ _ H). eexists. split; [reflexivity|].
  unfold info_stream_type, info_max_resolution, info_region,
    stream_type_re, max_resolution_re, region_re.
  destruct (@quoted_field is_word slash_not_word
              "_stream_type"%string content) as [S1 S2].
  destruct (@quoted_field is_word_or_space slash_not_word_or_space
              "_maxResolution"%string content) as [M1 M2].
  destruct (@quoted_field is_word_or_space slash_not_word_or_space
              "_region"%string content) as [R1 R2].
  repeat split; try apply S1; try apply S2; try apply M1; try apply M2;
    try apply R1; try apply R2.
Qed.

End FieldsAndText.

(* ================================================================== *)
(** ** The effects of a run *)

Section Effects.
Import Py Re Env Script Spec PatternFacts RenderFacts MainFacts OrderFacts.
Context {U : UnicodeData}.

Lemma log_of_read_errors (f : FS) (init_files : list Path) :
  List.concat (map (log_of f) init_files) = read_errors f init_files.
Proof.
  unfold read_errors. rewrite flat_map_concat_map. f_equal.
  apply map_ext. intros p. unfold log_of.
  destruct (fs_read f p) as [content|e] eqn:E.
  - now rewrite (extract_read _ _ E).
  - now rewrite (extract_failed _ _ E).
Qed.

Lemma record_of_unreadable (f : FS) (p : Path) (e : str) :
  fs_read f p = inr e -> record_of f p = default_info (name (parent p)).
Proof. intros E. unfold record_of. now rewrite (extract_failed _ _ E). Qed.


(** X12. In a run that finds files, the lines printed between "Found ..."
    and "Deprecated services: ..." are the "Error reading" lines of the
    files that cannot be read, one each, in the order of discovery; such
    a file is not counted as deprecated and keeps a place in the table,
    under the name of its directory with the placeholders. *)
Theorem unreadable_files_are_reported_and_listed
  (w : World) (init_files : list Path) (t0 : list event) :
  find_service_files (fs w) (base_path_of w) = (Returned init_files, t0) ->
  init_files <> [] ->
  let records := map (record_of (fs w)) init_files in
  main w
  = (Returned tt,
     Print (lit "Base path: " ++ path_str (base_path_of w)) :: t0
     ++ Print (lit "Found " ++ str_of_nat (List.length init_files)
               ++ lit " service files")
     :: read_errors (fs w) init_files
     ++ [Print (lit "Deprecated services: "
                ++ str_of_nat (List.length (dropped records)));
         Now (clock w);
         Mkdir (parent (output_file_of w));
         WriteText (output_file_of w)
           (join [10%N] (table_lines (kept records) (clock w)))]) /\
  forall p e,
    In p init_files -> fs_read (fs w) p = inr e ->
    In (placeholder_service (name (parent p))) (kept records) /\
    ~ In (record_of (fs w) p) (dropped records).
Proof.
  intros Hfind Hne records. split.
  - rewrite (main_found w Hfind Hne). fold records.
    rewrite log_of_read_errors. cbn [app]. rewrite <- !app_assoc.
    reflexivity.
  - intros p e Hp He. pose proof (record_of_unreadable _ _ He) as Hr. split.
    + unfold kept. apply in_map_iff. exists (record_of (fs w) p).
      rewrite Hr. split; [reflexivity|]. apply filter_In. split; [|reflexivity].
      rewrite <- Hr. unfold records. now apply in_map.
    + unfold dropped. rewrite filter_In, Hr. intros [_ H]. discriminate H.
Qed.

(** X13. When every discovered service is deprecated the document is
    still written: it holds the header and the separator at the widths of
    the headers, no data row, and the trailer. *)
Theorem all_deprecated_gives_an_empty_table
  (w : World) (init_files : list Path) (t0 : list event) :
  find_service_files (fs w) (base_path_of w) = (Returned init_files, t0) ->
  init_files <> [] ->
  (forall p, In p init_files -> info_deprecate (record_of (fs w) p) = true) ->
  exists before,
    main w
    = (Returned tt,
       before
       ++ [Print (lit "Deprecated services: "
                  ++ str_of_nat (List.length init_files));
           Now (clock w);
           Mkdir (parent (output_file_of w));
           WriteText (output_file_of w)
             (join [10%N]
                ([lit "# Services Overview"; [];
                  lit "| Site Name | Stream Type | DRM | Max Resolution | Region |";
                  lit "|-----------|-------------|-----|----------------|--------|"]
                 ++ trailer (clock w)))]).
Proof.
  intros Hfind Hne Hall.
  pose proof (main_found w Hfind Hne) as E. cbv zeta in E.
  assert (Hk : kept (map (record_of (fs w)) init_files) = []).
  { unfold kept. clear Hfind Hne E.
    induction init_files as [|p l IH]; [reflexivity|].
    cbn [map filter]. rewrite (Hall p (or_introl eq_refl)). cbn [negb].
    apply IH. intros q Hq. apply Hall. now right. }
  assert (Hd : List.length (dropped (map (record_of (fs w)) init_files))
               = List.length init_files).
  { unfold dropped. clear Hfind Hne E Hk.
    induction init_files as [|p l IH]; [reflexivity|].
    cbn [map filter]. rewrite (Hall p (or_introl eq_refl)).
    cbn [List.length]. f_equal. apply IH. intros q Hq. apply Hall. now right. }
  rewrite Hk, Hd in E. rewrite E. eexists. reflexivity.
Qed.


(** *** The order of the records *)

Lemma sorted_unique_on (A : Type) (le : A -> A -> Prop) (l1 : list A) :
  (forall a b, In a l1 -> In b l1 -> le a b -> le b a -> a = b) ->
  forall l2, StronglySorted le l1 -> StronglySorted le l2 ->
             Permutation l1 l2 -> l1 = l2.
Proof.
  induction l1 as [|x l1 IH]; intros Ha l2 S1 S2 P.
  - apply Permutation_nil in P. now subst.
  - destruct l2 as [|y l2];
      [apply Permutation_sym, Permutation_nil in P; discriminate|].
    inversion S1 as [|? ? S1' F1]; subst.
    inversion S2 as [|? ? S2' F2]; subst.
    rewrite Forall_forall in F1, F2.
    assert (Hy : In y (x :: l1))
      by (apply (Permutation_in _ (Permutation_sym P)); now left).
    assert (Hx : In x (y :: l2)) by (apply (Permutation_in _ P); now left).
    assert (x = y).
    { destruct Hy as [E|Hy']; [exact E|].
      destruct Hx as [E|Hx']; [now symmetry|].
      apply Ha; [now left | now right | now apply F1 | now apply F2]. }
    subst y. f_equal. apply IH; auto.
    + intros a b Hia Hib. apply Ha; now right.
    + now apply Permutation_cons_inv in P.
Qed.

Lemma NoDup_map_injective_on (A B : Type) (g : A -> B) (l : list A) :
  NoDup (map g l) ->
  forall a b, In a l -> In b l -> g a = g b -> a = b.
Proof.
  induction l as [|x l IH]; intros Hn a b Ha Hb E; [destruct Ha|].
  simpl in Hn. inversion Hn as [|? ? Hx Hl]; subst.
  destruct Ha as [->|Ha], Hb as [->|Hb]; auto.
  - exfalso. apply Hx. rewrite E. now apply in_map.
  - exfalso. apply Hx. rewrite <- E. now apply in_map.
Qed.

(** X15. The table does not depend on the order in which the records are
    given, as long as no two of them have the same lower-cased name. *)
Theorem table_ignores_record_order (s1 s2 : list Service) (now : datetime) :
  Permutation s1 s2 ->
  NoDup (map sort_key s1) ->
  table_lines s1 now = table_lines s2 now.
Proof.
  intros P Hn.
  assert (E : sorted str_ltb sort_key s1 = sorted str_ltb sort_key s2).
  { apply (@sorted_unique_on _
             (fun a b => str_ltb (sort_key b) (sort_key a) = false)).
    - intros a b Ha Hb Hab Hba.
      apply (@NoDup_map_injective_on _ _ sort_key s1 Hn).
      + exact (Permutation_in _ (Permutation_sym (sorted_perm _ _ _)) Ha).
      + exact (Permutation_in _ (Permutation_sym (sorted_perm _ _ _)) Hb).
      + now apply str_ltb_total.
    - apply (sorted_sorted str_ltb sort_key);
        [exact str_ltb_asym | exact str_le_trans].
    - apply (sorted_sorted str_ltb sort_key);
        [exact str_ltb_asym | exact str_le_trans].
    - eapply perm_trans; [apply Permutation_sym, sorted_perm|].
      eapply perm_trans; [exact P | apply sorted_perm]. }
  unfold table_lines, make_table_data. now rewrite E.
Qed.

End Effects.

(* ================================================================== *)
(** ** The further properties on sample environments *)

Section FurtherExamples.
Import Py Re Env Script Spec.

(** Of a cache directory, a plain file, a directory without declaration
    file and a service, discovery returns the file of the service. *)
Example discovery_skips_other_entries :
  find_service_files mixed_entries
    (mkPath (lit "/") [lit "work"])
  = (Returned
       [mkPath (lit "/") [lit "work"] // "StreamingCommunity" // "Api"
        // "Service" // "amazon_prime" // "__init__.py"],
     []).
Proof. reflexivity. Qed.

(** A services path that is a plain file: listing it raises, and so do
    discovery and the run, which has only printed the base path. *)
Example discovery_raises_on_a_file :
  find_service_files services_is_a_file (mkPath (lit "/") [lit "work"])
  = (Raised (lit "Not a directory"), []) /\
  main (U := ascii_only) (sample_world services_is_a_file)
  = (Raised (lit "Not a directory"), [Print (lit "Base path: /work")]).
Proof. split; reflexivity. Qed.

Lemma listing_order_witness :
  find_service_files two_services
    (mkPath (lit "/") [lit "work"])
  = find_service_files two_services_reversed
      (mkPath (lit "/") [lit "work"]).
Proof.
  apply discovery_ignores_listing_order.
  repeat split. intros p. apply perm_swap.
Defined.

Lemma case_witness :
  sort_key (U := ascii_only)
    (lit "Amazon_Prime", lit "HLS", true, lit "1080p", lit "IT")
  = sort_key (U := ascii_only)
      (lit "amazon_prime", lit "DASH", false, lit "720p", lit "US").
Proof.
  apply (@ascii_names_compare_without_case ascii_only
           (lit "Amazon_Prime", lit "HLS", true, lit "1080p", lit "IT")
           (lit "amazon_prime", lit "DASH", false, lit "720p", lit "US")
           eq_refl eq_refl).
  reflexivity.
Defined.

Lemma first_column_witness :
  width 0 (col_widths (make_table_data (U := ascii_only) sample_services)) = 12.
Proof.
  refine (proj2 (@first_column_fits_the_names ascii_only sample_services _)).
  repeat constructor.
Defined.

Lemma flags_witness :
  exists r,
    extract_service_info (U := ascii_only)
      (reads_as (inl (lit "_drm = True"))) sample_init = (Returned r, []) /\
    info_drm r = true.
Proof.
  destruct (@flags_read_back ascii_only (reads_as (inl (lit "_drm = True")))
              sample_init (lit "_drm = True") eq_refl) as (r & E & Hd & _).
  exists r. split; [exact E|]. apply Hd. exists 0.
  split; [simpl; lia|]. split.
  - exists [32%N], [32%N], []. repeat split.
  - intros j a' Hj. lia.
Defined.

Lemma placeholder_witness :
  nowhere (assigns_quoted "_stream_type" (is_word (U := ascii_only)))
    sample_region.
Proof.
  destruct (@placeholder_means_no_match ascii_only
              (reads_as (inl sample_region)) sample_init sample_region eq_refl)
    as (r & E & S1 & _).
  apply S1. vm_compute in E. injection E as <-. reflexivity.
Defined.

Lemma unreadable_witness :
  main (U := ascii_only) (sample_world unreadable_service)
  = (Returned tt,
     [Print (lit "Base path: /work");
      Print (lit "Found 1 service files");
      Print (lit "Error reading /work/StreamingCommunity/Api/Service/amazon_prime/__init__.py: Permission denied");
      Print (lit "Deprecated services: 0");
      Now sample_clock;
      Mkdir (parent (output_file_of (sample_world unreadable_service)));
      WriteText (output_file_of (sample_world unreadable_service))
        (join [10%N]
           (table_lines (U := ascii_only)
              [placeholder_service (lit "amazon_prime")] sample_clock))]).
Proof.
  exact (proj1 (@unreadable_files_are_reported_and_listed ascii_only
                  (sample_world unreadable_service)
                  [base_path_of (sample_world unreadable_service)
                     // "StreamingCommunity" // "Api" // "Service"
                     // "amazon_prime" // "__init__.py"]
                  [] eq_refl ltac:(discriminate))).
Defined.

Lemma all_deprecated_witness :
  exists before doc,
    main (U := ascii_only) (sample_world only_old_service)
    = (Returned tt,
       before
       ++ [Print (lit "Deprecated services: 1");
           Now sample_clock;
           Mkdir (parent (output_file_of (sample_world only_old_service)));
           WriteText (output_file_of (sample_world only_old_service)) doc]) /\
    doc = join [10%N] (table_lines (U := ascii_only) [] sample_clock).
Proof.
  destruct (@all_deprecated_gives_an_empty_table ascii_only
              (sample_world only_old_service)
              [base_path_of (sample_world only_old_service)
                 // "StreamingCommunity" // "Api" // "Service"
                 // "old_service" // "__init__.py"]
              [] eq_refl ltac:(discriminate)) as (before & E).
  - intros p [<-|[]]. reflexivity.
  - exists before. eexists. split; [exact E | reflexivity].
Defined.

Lemma rectangular_witness :
  List.length
    (split_lines
       (join [10%N] (table_lines (U := ascii_only) sample_services sample_clock)))
  = 12.
Proof.
  refine (proj1 (proj2 (@table_is_rectangular ascii_only sample_services
                          sample_clock _))).
  intros r Hr. simpl in Hr.
  repeat (destruct Hr as [<-|Hr];
          [repeat constructor; apply one_line_check; reflexivity|]).
  destruct Hr.
Defined.

Lemma record_order_witness :
  table_lines (U := ascii_only)
    [(lit "rai", lit "HLS", false, lit "N/A", lit "N/A");
     (lit "amazon_prime", lit "DASH", false, lit "720p", lit "US")]
    sample_clock
  = table_lines (U := ascii_only)
      [(lit "amazon_prime", lit "DASH", false, lit "720p", lit "US");
       (lit "rai", lit "HLS", false, lit "N/A", lit "N/A")]
      sample_clock.
Proof.
  apply (@table_ignores_record_order ascii_only).
  - apply perm_swap.
  - constructor.
    + simpl. intros [H|[]]. discriminate H.
    + constructor; [intros [] | constructor].
Defined.

End FurtherExamples.
